(** * examples/demo.py: the query cache and the type dispatcher

    A shallow embedding of [DatabaseManager.connect], [DatabaseManager.query]
    and [process_data] of [examples/demo.py], with the properties of the
    query cache and of the tag dispatch proved about it.

    Conventions of the embedding.
    - A Python [str] is a [string]; the text primitives ([strip], [upper],
      [repr]) are the ones of CPython restricted to ASCII code points, bytes
      from 128 on are passed through unchanged.
    - The payload of a record is a [pyval]: [None], [bool], [int], [str],
      [list] and [dict] with string keys.  Floats are left out.
    - Exceptions are explicit: a computation returns [Ret a] or [Raise e],
      together with the state it leaves behind.
    - The world outside the program is a [World]: the lines printed so far,
      the number of clock readings taken, and a script of the faults that
      the standard output will raise on the coming [print] calls.
    - [hash] and the clock are the host's; they are section variables.
    - The limits the host puts on the printing of a value, on the digits of
      an integer and on the depth of nesting, are a [Host], which
      [process_data] takes as its first argument. *)

From Stdlib Require Import ZArith Ascii String List Lia.
From stdpp Require Import base option list strings pretty gmap fin_maps.

Local Open Scope string_scope.
Local Open Scope list_scope.
Set Warnings "-register-all".

(** ** Host primitives on text *)

Module Py.

Definition chr (n : nat) : ascii := ascii_of_nat n.
Definition ord (c : ascii) : nat := nat_of_ascii c.

Definition nl : string := String (chr 10) EmptyString.
Definition squote : ascii := chr 39.
Definition dquote : ascii := chr 34.
Definition backslash : ascii := chr 92.

(** [str.isspace] on ASCII: TAB, LF, VT, FF, CR, FS, GS, RS, US, SPACE. *)
Definition is_space (c : ascii) : bool :=
  let n := ord c in
  (((9 <=? n) && (n <=? 13)) || ((28 <=? n) && (n <=? 32)))%nat.

Fixpoint lstrip (s : string) : string :=
  match s with
  | EmptyString => EmptyString
  | String c s' => if is_space c then lstrip s' else s
  end.

Fixpoint rstrip (s : string) : string :=
  match s with
  | EmptyString => EmptyString
  | String c s' =>
      match rstrip s' with
      | EmptyString => if is_space c then EmptyString else String c EmptyString
      | r => String c r
      end
  end.

(** [s.strip()] *)
Definition strip (s : string) : string := lstrip (rstrip s).

Definition upper_char (c : ascii) : ascii :=
  let n := ord c in
  if ((97 <=? n) && (n <=? 122))%nat then chr (n - 32) else c.

(** [s.upper()] *)
Fixpoint upper (s : string) : string :=
  match s with
  | EmptyString => EmptyString
  | String c s' => String (upper_char c) (upper s')
  end.

(** [bool(s)] for a string *)
Definition nonempty (s : string) : bool :=
  match s with EmptyString => false | String _ _ => true end.

Fixpoint contains (c : ascii) (s : string) : bool :=
  match s with
  | EmptyString => false
  | String d s' => Ascii.eqb c d || contains c s'
  end.

Definition hex_digit (n : nat) : ascii :=
  if (n <? 10)%nat then chr (48 + n) else chr (87 + n).

(** One character of [repr(s)], inside the quote [q]. *)
Definition repr_char (q c : ascii) : string :=
  let n := ord c in
  if Ascii.eqb c q || Ascii.eqb c backslash
  then String backslash (String c EmptyString)
  else if (n =? 9)%nat then String backslash "t"
  else if (n =? 10)%nat then String backslash "n"
  else if (n =? 13)%nat then String backslash "r"
  else if ((n <? 32) || (n =? 127))%nat
  then String backslash
         (String "x" (String (hex_digit (n / 16))
                        (String (hex_digit (n mod 16)) EmptyString)))
  else String c EmptyString.

Fixpoint repr_body (q : ascii) (s : string) : string :=
  match s with
  | EmptyString => EmptyString
  | String c s' => repr_char q c +:+ repr_body q s'
  end.

(** [repr(s)]: single quotes, unless the text has one and no double quote. *)
Definition repr_str (s : string) : string :=
  let q := if contains squote s && negb (contains dquote s)
           then dquote else squote in
  String q (repr_body q s +:+ String q EmptyString).

(** [sep.join(l)] *)
Fixpoint join (sep : string) (l : list string) : string :=
  match l with
  | [] => EmptyString
  | [x] => x
  | x :: l' => x +:+ sep +:+ join sep l'
  end.

(** [str(l)] for a list of strings *)
Definition str_list (l : list string) : string :=
  "[" +:+ join ", " (map repr_str l) +:+ "]".

End Py.

Example strip_inner_space_kept : Py.strip "  a b  " = "a b".
Proof. reflexivity. Qed.

Example strip_blank : Py.strip "   " = EmptyString.
Proof. reflexivity. Qed.

Example upper_mixed : Py.upper "Hello, World 42" = "HELLO, WORLD 42".
Proof. reflexivity. Qed.

Example str_list_raw : Py.str_list [" a "; "b"] = "[' a ', 'b']".
Proof. reflexivity. Qed.

(** ** Values, as far as a record can carry them *)

Inductive pyval : Type :=
  | VNone
  | VBool (b : bool)
  | VInt (n : Z)
  | VStr (s : string)
  | VList (l : list pyval)
  | VDict (d : list (string * pyval)).

(** [bool(v)] *)
Definition truthy (v : pyval) : bool :=
  match v with
  | VNone => false
  | VBool b => b
  | VInt n => negb (n =? 0)%Z
  | VStr s => Py.nonempty s
  | VList l => match l with [] => false | _ => true end
  | VDict d => match d with [] => false | _ => true end
  end.

Definition type_name (v : pyval) : string :=
  match v with
  | VNone => "NoneType"
  | VBool _ => "bool"
  | VInt _ => "int"
  | VStr _ => "str"
  | VList _ => "list"
  | VDict _ => "dict"
  end.

(** ** Exceptions and outcomes *)

(** [PyValueError] and [PyRecursionError] stand for Python's [ValueError]
    and [RecursionError]. *)
Inductive exn_class : Type :=
  | RuntimeError | ConnectionError | BrokenPipeError
  | OSError | TypeError | AttributeError
  | PyValueError | PyRecursionError.

Record exn : Type := mkExn { exn_cls : exn_class; exn_msg : string }.

(** [except ConnectionError] also catches the subclasses. *)
Definition is_ConnectionError (e : exn) : bool :=
  match exn_cls e with
  | ConnectionError | BrokenPipeError => true
  | _ => false
  end.

Inductive Outcome (A : Type) : Type :=
  | Ret (a : A)
  | Raise (e : exn).
Arguments Ret {A} a.
Arguments Raise {A} e.

(** A computation over a state [S] that returns or raises. *)
Definition M (S A : Type) : Type := S -> Outcome A * S.

Module Eff.

Definition ret {S A} (a : A) : M S A := fun s => (Ret a, s).
Definition raise {S A} (e : exn) : M S A := fun s => (Raise e, s).

Definition bind {S A B} (m : M S A) (k : A -> M S B) : M S B :=
  fun s =>
    match m s with
    | (Ret a, s') => k a s'
    | (Raise e, s') => (Raise e, s')
    end.

(** [try: body / except <handles>: handler] *)
Definition try_except {S A} (body : M S A) (handles : exn -> bool)
           (handler : exn -> M S A) : M S A :=
  fun s =>
    match body s with
    | (Raise e, s') => if handles e then handler e s' else (Raise e, s')
    | r => r
    end.

(** [try: body / finally: fin]: the final block always runs; when it
    raises, its exception replaces the outcome of the body. *)
Definition try_finally {S A} (body : M S A) (fin : M S unit) : M S A :=
  fun s =>
    match body s with
    | (o, s') =>
        match fin s' with
        | (Ret _, s'') => (o, s'')
        | (Raise e, s'') => (Raise e, s'')
        end
    end.

(** Run a computation on the second component of a pair of states. *)
Definition on_world {S W A} (m : M W A) : M (S * W) A :=
  fun sw =>
    match m (snd sw) with
    | (o, w') => (o, (fst sw, w'))
    end.

Definition of_outcome {S A} (o : Outcome A) : M S A := fun s => (o, s).

End Eff.

Notation "'do' x <- m ; k" := (Eff.bind m (fun x => k))
  (at level 10, x name, m at level 100, k at level 200, only parsing).

(** ** The world outside the program *)

Record World : Type := mkWorld {
  stdout : list string;            (* the lines printed so far *)
  clock_reads : nat;               (* how often the clock was read *)
  faults : list (option exn)       (* what the coming [print] calls raise *)
}.

(** [print(line)]: the next entry of the fault script decides whether the
    write raises; an exhausted script means no fault. *)
Definition print (line : string) : M World unit :=
  fun w =>
    match faults w with
    | Some e :: fs => (Raise e, mkWorld (stdout w) (clock_reads w) fs)
    | None :: fs => (Ret tt, mkWorld (stdout w ++ [line]) (clock_reads w) fs)
    | [] => (Ret tt, mkWorld (stdout w ++ [line]) (clock_reads w) [])
    end.

(** Normal operation of the standard output: no fault is scheduled. *)
Definition quiet (w : World) : Prop := Forall (fun f => f = None) (faults w).

(** ** DatabaseManager *)

(** The dictionary built by [query]; its four keys are fixed. *)
Record QueryResult : Type := mkResult {
  sql_of : string;
  params_of : list string;
  timestamp_of : string;
  rows_affected : nat
}.

Record DatabaseManager : Type := mkDB {
  connection : string;
  _cache : gmap string QueryResult;
  is_connected : bool
}.

(** [DatabaseManager(connection_string)] *)
Definition init (connection_string : string) : DatabaseManager :=
  mkDB connection_string ∅ false.

Definition set_is_connected (b : bool) : M (DatabaseManager * World) unit :=
  fun st => (Ret tt, (mkDB (connection (fst st)) (_cache (fst st)) b, snd st)).

Definition set_cache_item (k : string) (r : QueryResult)
  : M (DatabaseManager * World) unit :=
  fun st =>
    (Ret tt, (mkDB (connection (fst st)) (<[k := r]> (_cache (fst st)))
                   (is_connected (fst st)), snd st)).

Definition self : M (DatabaseManager * World) DatabaseManager :=
  fun st => (Ret (fst st), st).

(** [await db.connect()], run to completion: the body has no suspension
    point. *)
Definition connect : M (DatabaseManager * World) bool :=
  Eff.try_finally
    (Eff.try_except
       (do db <- self;
        do _ <- Eff.on_world (print ("Connecting to: " +:+ connection db));
        do _ <- set_is_connected true;
        Eff.ret true)
       is_ConnectionError
       (fun e =>
          do _ <- Eff.on_world (print ("Failed to connect: " +:+ exn_msg e));
          Eff.ret false))
    (Eff.on_world (print "Connection attempt completed")).

(** [params or []] *)
Definition or_empty (params : option (list string)) : list string :=
  match params with
  | None => []
  | Some l => l
  end.

(** [str(params)] *)
Definition str_params (params : option (list string)) : string :=
  match params with
  | None => "None"
  | Some l => Py.str_list l
  end.

(** [[p.strip() for p in (params or []) if p]] *)
Definition cleaned_params (params : option (list string)) : list string :=
  map Py.strip (List.filter Py.nonempty (or_empty params)).

Section Host.

(** [hash] on strings: fixed within one process, seeded per process. *)
Variable hash : string -> Z.

(** The text [datetime.now().isoformat()] yields at the n-th reading. *)
Variable clock : nat -> string.

Definition now_isoformat : M World string :=
  fun w => (Ret (clock (clock_reads w)),
            mkWorld (stdout w) (S (clock_reads w)) (faults w)).

(** [f"query_{hash(sql)}_{hash(str(params))}"] *)
Definition cache_key (sql : string) (params : option (list string)) : string :=
  "query_" +:+ pretty (hash sql) +:+ "_" +:+ pretty (hash (str_params params)).

Definition query (sql : string) (params : option (list string))
  : M (DatabaseManager * World) QueryResult :=
  do db <- self;
  if negb (is_connected db)
  then Eff.raise (mkExn RuntimeError "Not connected to database")
  else
    let key := cache_key sql params in
    match _cache db !! key with
    | Some r =>
        do _ <- Eff.on_world (print "Cache hit!");
        Eff.ret r
    | None =>
        let cleaned := cleaned_params params in
        do stamp <- Eff.on_world now_isoformat;
        let result := mkResult sql cleaned stamp (length cleaned) in
        do _ <- set_cache_item key result;
        Eff.ret result
    end.

End Host.

(** ** The text of a value *)

(** The limits the interpreter puts on the printing of a value.
    [int_max_str_digits] is [sys.get_int_max_str_digits()], 4300 unless the
    host was configured otherwise, with 0 for no limit.  [repr_depth] is
    the number of levels of containers inside a value for which the
    recursion limit leaves room at the place where [process_data] prints. *)
Record Host : Type := mkHost {
  int_max_str_digits : nat;
  repr_depth : nat
}.

Definition map_outcome {A B} (f : A -> B) (o : Outcome A) : Outcome B :=
  match o with
  | Ret a => Ret (f a)
  | Raise e => Raise e
  end.

(** The outcomes of a sequence of steps: the results in order, or the
    first exception. *)
Fixpoint all_outcomes {A} (l : list (Outcome A)) : Outcome (list A) :=
  match l with
  | [] => Ret []
  | Raise e :: _ => Raise e
  | Ret a :: rest => map_outcome (cons a) (all_outcomes rest)
  end.

(** The number of decimal digits of an integer, without the sign. *)
Definition int_digits (n : Z) : nat := String.length (pretty (Z.abs n)).

(** Whether the host prints the integer [n]. *)
Definition int_printable (h : Host) (n : Z) : bool :=
  ((int_max_str_digits h =? 0) || (int_digits n <=? int_max_str_digits h))%nat.

(** [str(n)] for an integer. *)
Definition int_str (h : Host) (n : Z) : Outcome string :=
  if int_printable h n
  then Ret (pretty n)
  else Raise (mkExn PyValueError
                ("Exceeds the limit (" +:+ pretty (int_max_str_digits h)
                 +:+ " digits) for integer string conversion; "
                 +:+ "use sys.set_int_max_str_digits() to increase the limit")).

Definition recursion_error : exn :=
  mkExn PyRecursionError
        "maximum recursion depth exceeded while getting the repr of an object".

(** [repr(v)] with room for [d] levels of containers inside [v]. *)
Fixpoint py_repr (h : Host) (d : nat) (v : pyval) {struct d} : Outcome string :=
  let inner (x : pyval) : Outcome string :=
    match d with
    | 0 => Raise recursion_error
    | S d' => py_repr h d' x
    end in
  match v with
  | VNone => Ret "None"
  | VBool true => Ret "True"
  | VBool false => Ret "False"
  | VInt n => int_str h n
  | VStr s => Ret (Py.repr_str s)
  | VList l =>
      map_outcome (fun ts => "[" +:+ Py.join ", " ts +:+ "]")
                  (all_outcomes (map inner l))
  | VDict kvs =>
      map_outcome
        (fun ts => "{" +:+ Py.join ", " ts +:+ "}")
        (all_outcomes
           (map (fun kv =>
                   map_outcome (fun t => Py.repr_str (fst kv) +:+ ": " +:+ t)
                               (inner (snd kv)))
                kvs))
  end.

(** [str(v)], which is what an f-string field without a format prints. *)
Definition py_str (h : Host) (v : pyval) : Outcome string :=
  match v with
  | VStr s => Ret s
  | _ => py_repr h (repr_depth h) v
  end.

(** ** process_data *)

(** [item.get(k)] *)
Definition dict_get (item : gmap string pyval) (k : string) : pyval :=
  match item !! k with
  | Some v => v
  | None => VNone
  end.

(** [value.upper()] *)
Definition py_upper (v : pyval) : Outcome pyval :=
  match v with
  | VStr s => Ret (VStr (Py.upper s))
  | _ => Raise (mkExn AttributeError
                  ("'" +:+ type_name v +:+ "' object has no attribute 'upper'"))
  end.

(** [value * 2] *)
Definition py_mul2 (v : pyval) : Outcome pyval :=
  match v with
  | VInt n => Ret (VInt (n * 2))
  | VBool b => Ret (VInt (Z.b2z b * 2))
  | VStr s => Ret (VStr (s +:+ s))
  | VList l => Ret (VList (l ++ l))
  | _ => Raise (mkExn TypeError
                  ("unsupported operand type(s) for *: '" +:+ type_name v
                   +:+ "' and 'int'"))
  end.

(** [subject == "name"] for a literal pattern of the [match]. *)
Definition tag_is (name : string) (tag : pyval) : bool :=
  match tag with
  | VStr s => String.eqb s name
  | _ => false
  end.

Definition bind_outcome {A B} (o : Outcome A) (k : A -> Outcome B) : Outcome B :=
  match o with
  | Ret a => k a
  | Raise e => Raise e
  end.

(** [f"<label>{x}"] for a computed [x] *)
Definition labelled (h : Host) (label : string) (x : Outcome pyval)
  : Outcome string :=
  bind_outcome x (fun v => map_outcome (String.append label) (py_str h v)).

(** The [match item.get("type")] statement: the text bound to [processed]. *)
Definition dispatch (h : Host) (tag value : pyval) : Outcome string :=
  if tag_is "string" tag
  then labelled h "String: " (py_upper value)
  else if tag_is "number" tag
  then labelled h "Number: " (py_mul2 value)
  else if tag_is "boolean" tag
  then labelled h "Boolean: " (Ret (VBool (negb (truthy value))))
  else labelled h "Unknown: " (Ret value).

(** [f"Item {i}: {processed}"] *)
Definition item_line (i : nat) (processed : string) : string :=
  "Item " +:+ pretty i +:+ ": " +:+ processed.

Definition error_msg : string :=
  Py.nl +:+
  "            Error: Item missing required 'value' field." +:+ Py.nl +:+
  "            This is a multi-line string to demonstrate" +:+ Py.nl +:+
  "            syntax highlighting for different string types." +:+ Py.nl +:+
  "            ".

(** The [for i, item in enumerate(items)] loop, from index [i] on, with the
    list [results] built so far. *)
Fixpoint process_loop (h : Host) (i : nat) (items : list (gmap string pyval))
         (results : list string) : M World (list string) :=
  match items with
  | [] => Eff.ret results
  | item :: rest =>
      match dict_get item "value" with
      | VNone =>
          do _ <- print (Py.strip error_msg);
          process_loop h (S i) rest results
      | value =>
          do processed <- Eff.of_outcome (dispatch h (dict_get item "type") value);
          process_loop h (S i) rest (results ++ [item_line i processed])
      end
  end.

Definition process_data (h : Host) (items : list (gmap string pyval))
  : M World (list string) :=
  process_loop h 0 items [].

(** ** Person *)

Record Person : Type := mkPerson {
  name : string;
  age : Z;
  email : option string
}.

(** The outcome of a check that raises [ValueError] or passes. *)
Inductive checked (A : Type) : Type :=
  | Valid (a : A)
  | ValueError (msg : string).
Arguments Valid {A} a.
Arguments ValueError {A} msg.

(** [Person.__post_init__] *)
Definition post_init (p : Person) : checked unit :=
  if (age p <? 0)%Z then ValueError "Age cannot be negative" else Valid tt.

(** [Person(name, age, email)]: the generated [__init__] stores the fields
    and then runs [__post_init__]; [email] defaults to [None]. *)
Definition new_Person (n : string) (a : Z) (e : option string) : checked Person :=
  let p := mkPerson n a e in
  match post_init p with
  | Valid _ => Valid p
  | ValueError msg => ValueError msg
  end.

(** [Person.greet] *)
Definition greet (p : Person) : string :=
  "Hello, my name is " +:+ name p +:+ " and I'm " +:+ pretty (age p)
  +:+ " years old.".

(** ** Vocabulary of the statements *)

(** A record has a value when the key is present and not bound to [None]. *)
Definition has_value (item : gmap string pyval) : bool :=
  match item !! "value" with
  | None | Some VNone => false
  | Some _ => true
  end.

(** The text the [match] binds for a record, when it binds one. *)
Definition processed_of (h : Host) (item : gmap string pyval) : Outcome string :=
  dispatch h (dict_get item "type") (dict_get item "value").

(** A record the loop gets past: no value, or a value its tag can transform. *)
Definition transformable (h : Host) (item : gmap string pyval) : bool :=
  negb (has_value item) ||
  match processed_of h item with Ret _ => true | Raise _ => false end.

(** [enumerate(items, i)] *)
Fixpoint enumerate_from (i : nat) (items : list (gmap string pyval))
  : list (nat * gmap string pyval) :=
  match items with
  | [] => []
  | item :: rest => (i, item) :: enumerate_from (S i) rest
  end.

(** The records with a value, each with its index in the input. *)
Definition valued_from (i : nat) (items : list (gmap string pyval))
  : list (nat * gmap string pyval) :=
  List.filter (fun p => has_value (snd p)) (enumerate_from i items).

Definition valued (items : list (gmap string pyval)) := valued_from 0 items.

(** The records without a value. *)
Definition missing (items : list (gmap string pyval)) : list (gmap string pyval) :=
  List.filter (fun item => negb (has_value item)) items.

(** The diagnostic printed for a record without a value. *)
Definition diagnostic : string := Py.strip error_msg.

(** [w'] is [w] after printing [lines] without a fault and without reading
    the clock. *)
Definition printed (w w' : World) (lines : list string) : Prop :=
  stdout w' = stdout w ++ lines /\ clock_reads w' = clock_reads w /\ quiet w'.

(** The line [line] is the [k]-th entry of the output of the batch. *)
Definition emits (h : Host) (items : list (gmap string pyval)) (w : World)
           (k : nat) (line : string) : Prop :=
  exists out w', process_data h items w = (Ret out, w') /\ out !! k = Some line.

(** What the specification's wording of the cleaning step describes: strip
    every entry, then drop the empty ones. *)
Definition cleaned_as_worded (params : option (list string)) : list string :=
  List.filter Py.nonempty (map Py.strip (or_empty params)).

(** ** The standard output in normal operation *)

Lemma printed_refl w : quiet w -> printed w w [].
Proof. intros Hq. unfold printed. by rewrite app_nil_r. Qed.

Lemma printed_trans w w1 w2 l1 l2 :
  printed w w1 l1 -> printed w1 w2 l2 -> printed w w2 (l1 ++ l2).
Proof.
  intros (Ho1 & Hc1 & _) (Ho2 & Hc2 & Hq2).
  unfold printed. rewrite Ho2, Ho1, Hc2, Hc1, app_assoc. done.
Qed.

Lemma print_quiet line w :
  quiet w -> exists w', print line w = (Ret tt, w') /\ printed w w' [line].
Proof.
  unfold quiet, print, printed. intros Hq.
  destruct (faults w) as [|[e|] fs] eqn:Hf.
  - eexists. split; [reflexivity|]. simpl. auto.
  - apply Forall_cons in Hq as [? _]. discriminate.
  - apply Forall_cons in Hq as [_ Hq].
    eexists. split; [reflexivity|]. simpl. auto.
Qed.

(** ** Facts about the vocabulary *)

Lemma has_value_get item :
  has_value item = match dict_get item "value" with VNone => false | _ => true end.
Proof. unfold has_value, dict_get. by destruct (item !! "value") as [[]|]. Qed.

Lemma has_value_present item v :
  item !! "value" = Some v -> v <> VNone -> has_value item = true.
Proof. unfold has_value. intros -> Hv. by destruct v. Qed.

Lemma dict_get_present item k v : item !! k = Some v -> dict_get item k = v.
Proof. unfold dict_get. by intros ->. Qed.

Lemma tag_is_spec name item :
  tag_is name (dict_get item "type") = true <-> item !! "type" = Some (VStr name).
Proof.
  unfold dict_get, tag_is.
  destruct (item !! "type") as [[| | |s| |]|]; try (split; congruence).
  rewrite String.eqb_eq. split; congruence.
Qed.

Lemma tag_is_not name item :
  item !! "type" <> Some (VStr name) -> tag_is name (dict_get item "type") = false.
Proof.
  intros Hne. destruct (tag_is name (dict_get item "type")) eqn:Ht; [|done].
  by apply tag_is_spec in Ht.
Qed.

Lemma valued_from_app i l1 l2 :
  valued_from i (l1 ++ l2) = valued_from i l1 ++ valued_from (i + length l1) l2.
Proof.
  unfold valued_from. revert i.
  induction l1 as [|x l1 IH]; intros i; simpl.
  - by rewrite Nat.add_0_r.
  - rewrite IH. replace (S i + length l1) with (i + S (length l1)) by lia.
    by destruct (has_value x).
Qed.

Lemma valued_from_length i j l :
  length (valued_from i l) = length (valued_from j l).
Proof.
  unfold valued_from. revert i j.
  induction l as [|x l IH]; intros i j; simpl; [done|].
  destruct (has_value x); simpl; auto.
Qed.

Lemma valued_missing_length i l :
  length (valued_from i l) + length (missing l) = length l.
Proof.
  unfold valued_from, missing. revert i.
  induction l as [|x l IH]; intros i; simpl; [done|].
  destruct (has_value x); simpl; rewrite <- (IH (S i)); lia.
Qed.

Lemma missing_app l1 l2 : missing (l1 ++ l2) = missing l1 ++ missing l2.
Proof. unfold missing. apply List.filter_app. Qed.

Lemma valued_from_lookup i l k j item :
  valued_from i l !! k = Some (j, item) ->
  exists n, j = i + n /\ l !! n = Some item /\ has_value item = true.
Proof.
  unfold valued_from. revert i k.
  induction l as [|x l IH]; intros i k; simpl; [done|].
  destruct (has_value x) eqn:Hx; simpl.
  - destruct k as [|k]; simpl.
    + intros [= <- <-]. exists 0. by rewrite Nat.add_0_r.
    + intros H. apply IH in H as (n & -> & Hn & Hv).
      exists (S n). split; [lia|done].
  - intros H. apply IH in H as (n & -> & Hn & Hv).
    exists (S n). split; [lia|done].
Qed.

(** ** The loop of process_data *)

(** The output line of a valued record: its index, then the text bound by
    the [match]. *)
Definition line_of (h : Host) (p : nat * gmap string pyval) (line : string)
  : Prop :=
  exists t, processed_of h (snd p) = Ret t /\ line = item_line (fst p) t.

Lemma process_loop_cons {h} i item rest acc :
  process_loop h i (item :: rest) acc =
  if has_value item
  then (do processed <- Eff.of_outcome (processed_of h item);
        process_loop h (S i) rest (acc ++ [item_line i processed]))
  else (do _ <- print diagnostic;
        process_loop h (S i) rest acc).
Proof.
  simpl. rewrite has_value_get. unfold processed_of, diagnostic.
  by destruct (dict_get item "value").
Qed.

Lemma process_loop_app {h} l1 : forall l2 i acc w,
  process_loop h i (l1 ++ l2) acc w =
  match process_loop h i l1 acc w with
  | (Ret acc', w') => process_loop h (i + length l1) l2 acc' w'
  | (Raise e, w') => (Raise e, w')
  end.
Proof.
  induction l1 as [|item l1 IH]; intros l2 i acc w.
  - simpl. unfold Eff.ret. by rewrite Nat.add_0_r.
  - rewrite <- app_comm_cons, !process_loop_cons.
    replace (i + length (item :: l1)) with (S i + length l1) by (simpl; lia).
    destruct (has_value item); unfold Eff.bind, Eff.of_outcome.
    + destruct (processed_of h item) as [t|e]; [apply IH|done].
    + destruct (print diagnostic w) as [[[]|e] w1]; [apply IH|done].
Qed.

Lemma process_loop_ok {h} items : forall i acc w,
  quiet w ->
  forallb (transformable h) items = true ->
  exists out w',
    process_loop h i items acc w = (Ret (acc ++ out), w') /\
    Forall2 (line_of h) (valued_from i items) out /\
    printed w w' (map (fun _ => diagnostic) (missing items)).
Proof.
  induction items as [|item rest IH]; intros i acc w Hq Hall.
  - exists [], w. simpl. rewrite app_nil_r.
    split; [done|]. split; [constructor|by apply printed_refl].
  - simpl in Hall. apply andb_true_iff in Hall as [Hitem Hrest].
    rewrite process_loop_cons. unfold valued_from, missing. simpl.
    unfold transformable in Hitem.
    destruct (has_value item) eqn:Hv; simpl in *.
    + destruct (processed_of h item) as [t|e] eqn:Ht; [|discriminate].
      destruct (IH (S i) (acc ++ [item_line i t]) w Hq Hrest)
        as (out & w' & Hrun & Hlines & Hpr).
      exists (item_line i t :: out), w'.
      unfold Eff.bind, Eff.of_outcome. rewrite Hrun, <- app_assoc.
      split; [done|]. split; [|done].
      constructor; [|done]. exists t. split; [exact Ht|done].
    + destruct (print_quiet diagnostic w Hq) as (w1 & Hp & Hpr1).
      destruct (IH (S i) acc w1 (proj2 (proj2 Hpr1)) Hrest)
        as (out & w' & Hrun & Hlines & Hpr).
      exists out, w'. unfold Eff.bind. rewrite Hp.
      split; [done|]. split; [done|].
      apply (printed_trans _ _ _ _ _ Hpr1 Hpr).
Qed.

Lemma process_loop_raise {h} i bad post acc w e :
  has_value bad = true ->
  processed_of h bad = Raise e ->
  process_loop h i (bad :: post) acc w = (Raise e, w).
Proof.
  intros Hv He. rewrite process_loop_cons, Hv.
  unfold Eff.bind, Eff.of_outcome. by rewrite He.
Qed.

(** The whole batch, when every record can be got past. *)
Lemma process_data_ok {h} items w :
  quiet w ->
  forallb (transformable h) items = true ->
  exists out w',
    process_data h items w = (Ret out, w') /\
    Forall2 (line_of h) (valued items) out /\
    printed w w' (map (fun _ => diagnostic) (missing items)).
Proof.
  intros Hq Hall.
  destruct (process_loop_ok items 0 [] w Hq Hall) as (out & w' & H).
  exists out, w'. exact H.
Qed.

(** The record after [pre] contributes the line with the index
    [length pre], after the lines of the valued records of [pre]. *)
Lemma process_data_at {h} pre item post w t :
  quiet w ->
  forallb (transformable h) pre = true ->
  forallb (transformable h) post = true ->
  has_value item = true ->
  processed_of h item = Ret t ->
  exists o1 o2 w',
    process_data h (pre ++ item :: post) w
      = (Ret (o1 ++ item_line (length pre) t :: o2), w') /\
    length o1 = length (valued pre) /\
    length o2 = length (valued post) /\
    printed w w' (map (fun _ => diagnostic) (missing pre ++ missing post)).
Proof.
  intros Hq Hpre Hpost Hv Ht.
  assert (Hall : forallb (transformable h) (pre ++ item :: post) = true).
  { rewrite forallb_app. simpl. rewrite Hpre, Hpost.
    unfold transformable. by rewrite Hv, Ht. }
  destruct (process_data_ok _ w Hq Hall) as (out & w' & Hrun & Hlines & Hpr).
  unfold valued in Hlines. rewrite valued_from_app in Hlines.
  apply Forall2_app_inv_l in Hlines as (o1 & o' & H1 & H2 & ->).
  unfold valued_from in H2. simpl in H2. rewrite Hv in H2.
  apply Forall2_cons_inv_l in H2 as (line & o2 & (t' & Ht' & ->) & H2 & ->).
  simpl in Ht'. rewrite Ht in Ht'. injection Ht' as <-.
  exists o1, o2, w'. split; [done|].
  split; [symmetry; apply (Forall2_length _ _ _ H1)|].
  split.
  - apply Forall2_length in H2. rewrite <- H2.
    apply valued_from_length.
  - rewrite missing_app in Hpr. unfold missing in Hpr at 2.
    simpl in Hpr. by rewrite Hv in Hpr.
Qed.

(** ** Concrete inputs *)

(** [sample_data] of [main]. *)
Definition sample_data : list (gmap string pyval) :=
  [ {[ "type" := VStr "string"; "value" := VStr "hello world" ]};
    {[ "type" := VStr "number"; "value" := VInt 42 ]};
    {[ "type" := VStr "boolean"; "value" := VBool true ]};
    {[ "type" := VStr "unknown"; "value" := VList [VInt 1; VInt 2; VInt 3] ]};
    {[ "type" := VStr "string" ]} ].

(** A host with the digit limit of a stock interpreter and room for a
    hundred levels of containers. *)
Definition demo_host : Host := mkHost 4300 100.

(** A world with nothing printed, the clock never read, no fault scheduled. *)
Definition fresh : World := mkWorld [] 0 [].

(** A manager as [main] builds it, already connected. *)
Definition demo_db : DatabaseManager :=
  mkDB "postgresql://localhost:5432/mydb" ∅ true.

(** Stand-ins for the host's [hash] and clock. *)
Definition demo_hash (s : string) : Z := Z.of_nat (String.length s).
Definition demo_clock (n : nat) : string := "2024-01-01T00:00:0" +:+ pretty n.

Lemma quiet_fresh : quiet fresh.
Proof. constructor. Qed.

Example process_sample_data :
  process_data demo_host sample_data fresh =
  (Ret ["Item 0: String: HELLO WORLD"; "Item 1: Number: 84";
        "Item 2: Boolean: False"; "Item 3: Unknown: [1, 2, 3]"],
   mkWorld [diagnostic] 0 []).
Proof. vm_compute. reflexivity. Qed.

(** ** The cache key *)

Lemma cache_key_params hash sql p1 p2 :
  hash (str_params p1) <> hash (str_params p2) ->
  cache_key hash sql p1 <> cache_key hash sql p2.
Proof.
  intros Hne Heq. unfold cache_key in Heq.
  do 3 apply String.app_inj in Heq.
  by apply pretty_Z_inj in Heq.
Qed.

(** ** query, case by case *)

Lemma query_on_miss hash clock sql params db w :
  is_connected db = true ->
  _cache db !! cache_key hash sql params = None ->
  let r := mkResult sql (cleaned_params params) (clock (clock_reads w))
                    (length (cleaned_params params)) in
  query hash clock sql params (db, w)
  = (Ret r,
     (mkDB (connection db) (<[cache_key hash sql params := r]> (_cache db)) true,
      mkWorld (stdout w) (S (clock_reads w)) (faults w))).
Proof.
  intros Hc Hmiss. unfold query, Eff.bind, self. simpl.
  rewrite Hc, Hmiss. simpl.
  unfold Eff.on_world, now_isoformat, set_cache_item, Eff.ret. simpl.
  by rewrite Hc.
Qed.

Lemma query_on_hit hash clock sql params db w r :
  is_connected db = true ->
  _cache db !! cache_key hash sql params = Some r ->
  quiet w ->
  exists w',
    query hash clock sql params (db, w) = (Ret r, (db, w')) /\
    printed w w' ["Cache hit!"].
Proof.
  intros Hc Hhit Hq. unfold query, Eff.bind, self. simpl.
  rewrite Hc, Hhit. simpl.
  destruct (print_quiet "Cache hit!" w Hq) as (w' & Hp & Hpr).
  exists w'. unfold Eff.on_world, Eff.ret. simpl. rewrite Hp. done.
Qed.

(** The cleaning of the code and the cleaning as worded agree unless a
    non-empty entry consists of whitespace only. *)
Lemma cleaned_params_as_worded params :
  Forall (fun p => Py.nonempty p = true -> Py.nonempty (Py.strip p) = true)
         (or_empty params) ->
  cleaned_params params = cleaned_as_worded params.
Proof.
  unfold cleaned_params, cleaned_as_worded.
  induction (or_empty params) as [|p l IH]; intros Hall; [done|].
  apply Forall_cons in Hall as [Hp Hl]. simpl.
  destruct (Py.nonempty p) eqn:Hne; simpl.
  - rewrite (Hp eq_refl). f_equal. by apply IH.
  - destruct p; [|discriminate]. simpl. by apply IH.
Qed.

(** ** connect, case by case *)

Lemma connect_quiet db w :
  quiet w ->
  exists w',
    connect (db, w) = (Ret true, (mkDB (connection db) (_cache db) true, w')) /\
    printed w w' ["Connecting to: " +:+ connection db;
                  "Connection attempt completed"].
Proof.
  intros Hq.
  destruct (print_quiet ("Connecting to: " +:+ connection db) w Hq)
    as (w1 & Hp1 & Hpr1).
  destruct (print_quiet "Connection attempt completed" w1 (proj2 (proj2 Hpr1)))
    as (w2 & Hp2 & Hpr2).
  exists w2. split; [|apply (printed_trans _ _ _ _ _ Hpr1 Hpr2)].
  unfold connect, Eff.try_finally, Eff.try_except, Eff.bind, self,
    Eff.on_world, set_is_connected, Eff.ret.
  simpl. rewrite Hp1. simpl. by rewrite Hp2.
Qed.

(** The branch that reports a failure is taken when the first write raises
    a connection error: the flag keeps its value and [False] is returned. *)
Lemma connect_failure db w e fs :
  faults w = Some e :: fs ->
  is_ConnectionError e = true ->
  Forall (fun f => f = None) fs ->
  exists w',
    connect (db, w) = (Ret false, (db, w')) /\
    stdout w' = stdout w ++ ["Failed to connect: " +:+ exn_msg e;
                             "Connection attempt completed"].
Proof.
  intros Hf He Hfs.
  set (w0 := mkWorld (stdout w) (clock_reads w) fs).
  assert (Hq0 : quiet w0) by exact Hfs.
  destruct (print_quiet ("Failed to connect: " +:+ exn_msg e) w0 Hq0)
    as (w1 & Hp1 & Hpr1).
  destruct (print_quiet "Connection attempt completed" w1 (proj2 (proj2 Hpr1)))
    as (w2 & Hp2 & Hpr2).
  exists w2. split.
  - unfold connect, Eff.try_finally, Eff.try_except, Eff.bind, self,
      Eff.on_world, set_is_connected, Eff.ret.
    simpl. unfold print at 1. rewrite Hf. simpl. rewrite He.
    fold w0. rewrite Hp1. simpl. rewrite Hp2. by destruct db.
  - destruct (printed_trans _ _ _ _ _ Hpr1 Hpr2) as [Ho _]. exact Ho.
Qed.

(** ** More facts about the valued records *)

Lemma valued_from_complete l : forall i n item,
  l !! n = Some item ->
  has_value item = true ->
  exists k, valued_from i l !! k = Some (i + n, item).
Proof.
  unfold valued_from.
  induction l as [|x l IH]; intros i n item Hn Hv; [done|].
  destruct n as [|n]; simpl in *.
  - injection Hn as ->. rewrite Hv. exists 0. by rewrite Nat.add_0_r.
  - destruct (IH (S i) n item Hn Hv) as (k & Hk).
    replace (i + S n) with (S i + n) by lia.
    destruct (has_value x); [by exists (S k)|by exists k].
Qed.

Lemma valued_from_increasing l : forall i k1 k2 j1 j2 it1 it2,
  k1 < k2 ->
  valued_from i l !! k1 = Some (j1, it1) ->
  valued_from i l !! k2 = Some (j2, it2) ->
  j1 < j2.
Proof.
  induction l as [|x l IH]; intros i k1 k2 j1 j2 it1 it2 Hlt H1 H2; [done|].
  unfold valued_from in H1, H2. simpl in H1, H2.
  destruct (has_value x).
  - destruct k2 as [|k2]; [lia|]. simpl in H2.
    destruct k1 as [|k1]; simpl in H1.
    + injection H1 as <- <-.
      apply valued_from_lookup in H2 as (n & -> & _). lia.
    + apply (IH (S i) k1 k2 j1 j2 it1 it2); [lia|done..].
  - by apply (IH (S i) k1 k2 j1 j2 it1 it2).
Qed.

(** Instantiate a statement at closed inputs, discharging its premises and
    matching the goal by evaluation. *)
Ltac by_evaluation H :=
  let X := fresh "X" in
  pose proof H as X;
  repeat match type of X with
         | ?P -> _ =>
             let Y := fresh "Y" in
             assert (Y : P) by (vm_compute; first [reflexivity | discriminate]);
             specialize (X Y); clear Y
         end;
  vm_compute in X |- *; exact X.

(** * The claims *)

(** ** The query cache *)

(** C1. Two calls of [query] in succession with the same text and
    parameters on a connected manager return the same record: the second
    call is a hit that returns the entry stored under the key, field for
    field and timestamp included, reads no clock, prints the hit and leaves
    the manager as the first call left it.  When the first call was a miss,
    its record carries the one fresh timestamp. *)
Theorem query_twice_same_record hash clock sql params db w :
  is_connected db = true ->
  quiet w ->
  exists r db1 w1 w2,
    query hash clock sql params (db, w) = (Ret r, (db1, w1)) /\
    query hash clock sql params (db1, w1) = (Ret r, (db1, w2)) /\
    _cache db1 !! cache_key hash sql params = Some r /\
    printed w1 w2 ["Cache hit!"] /\
    (_cache db !! cache_key hash sql params = None ->
     timestamp_of r = clock (clock_reads w) /\
     clock_reads w1 = S (clock_reads w)).
Proof.
  intros Hc Hq.
  destruct (_cache db !! cache_key hash sql params) as [r|] eqn:Hk.
  - destruct (query_on_hit hash clock sql params db w r Hc Hk Hq)
      as (w1 & Hrun1 & Hpr1).
    destruct (query_on_hit hash clock sql params db w1 r Hc Hk
                (proj2 (proj2 Hpr1))) as (w2 & Hrun2 & Hpr2).
    exists r, db, w1, w2. repeat split; try done; apply Hpr2.
  - pose proof (query_on_miss hash clock sql params db w Hc Hk) as Hrun1.
    simpl in Hrun1.
    match type of Hrun1 with _ = (Ret ?x, (?d, ?y)) =>
      set (r := x) in *; set (db1 := d) in *; set (w1 := y) in * end.
    assert (Hk1 : _cache db1 !! cache_key hash sql params = Some r)
      by apply lookup_insert_eq.
    destruct (query_on_hit hash clock sql params db1 w1 r eq_refl Hk1 Hq)
      as (w2 & Hrun2 & Hpr2).
    exists r, db1, w1, w2. repeat split; try done; apply Hpr2.
Qed.

Lemma query_twice_same_record_witness :
  is_connected demo_db = true /\ quiet fresh /\
  exists r db1 w1 w2,
    query demo_hash demo_clock "SELECT 1" (Some [" a "; "b"]) (demo_db, fresh)
      = (Ret r, (db1, w1)) /\
    query demo_hash demo_clock "SELECT 1" (Some [" a "; "b"]) (db1, w1)
      = (Ret r, (db1, w2)).
Proof.
  split; [reflexivity|]. split; [constructor|].
  destruct (query_twice_same_record demo_hash demo_clock "SELECT 1"
              (Some [" a "; "b"]) demo_db fresh eq_refl quiet_fresh)
    as (r & db1 & w1 & w2 & H1 & H2 & _).
  exists r, db1, w1, w2. split; assumption.
Defined.

(** C2. The key is built from the text of the raw parameter list.  Two
    parameter lists that clean to the same list but whose raw texts the
    hash tells apart get two different keys, and two misses on them store
    two entries, with equal [params] fields. *)
Theorem raw_params_two_entries hash clock sql p1 p2 db w :
  cleaned_params p1 = cleaned_params p2 ->
  hash (str_params p1) <> hash (str_params p2) ->
  is_connected db = true ->
  _cache db !! cache_key hash sql p1 = None ->
  _cache db !! cache_key hash sql p2 = None ->
  cache_key hash sql p1 <> cache_key hash sql p2 /\
  exists r1 r2 db1 db2 w1 w2,
    query hash clock sql p1 (db, w) = (Ret r1, (db1, w1)) /\
    query hash clock sql p2 (db1, w1) = (Ret r2, (db2, w2)) /\
    _cache db2 !! cache_key hash sql p1 = Some r1 /\
    _cache db2 !! cache_key hash sql p2 = Some r2 /\
    size (_cache db2) = S (S (size (_cache db))) /\
    params_of r1 = params_of r2.
Proof.
  intros Hclean Hhash Hc Hk1 Hk2.
  pose proof (cache_key_params hash sql p1 p2 Hhash) as Hne.
  split; [exact Hne|].
  pose proof (query_on_miss hash clock sql p1 db w Hc Hk1) as Hrun1.
  simpl in Hrun1.
  match type of Hrun1 with _ = (Ret ?x, (?d, ?y)) =>
    set (r1 := x) in *; set (db1 := d) in *; set (w1 := y) in * end.
  assert (Hk2' : _cache db1 !! cache_key hash sql p2 = None).
  { simpl. by rewrite lookup_insert_ne. }
  pose proof (query_on_miss hash clock sql p2 db1 w1 eq_refl Hk2') as Hrun2.
  simpl in Hrun2.
  match type of Hrun2 with _ = (Ret ?x, (?d, ?y)) =>
    set (r2 := x) in *; set (db2 := d) in *; set (w2 := y) in * end.
  exists r1, r2, db1, db2, w1, w2.
  split; [exact Hrun1|]. split; [exact Hrun2|].
  split; [|split; [|split]].
  - simpl. rewrite lookup_insert_ne by congruence. apply lookup_insert_eq.
  - simpl. apply lookup_insert_eq.
  - simpl. rewrite map_size_insert_None by (by rewrite lookup_insert_ne).
    by rewrite map_size_insert_None.
  - simpl. exact Hclean.
Qed.

Lemma raw_params_two_entries_witness :
  cleaned_params (Some [" a "; "b"]) = cleaned_params (Some ["a"; "b"]) /\
  str_params (Some [" a "; "b"]) <> str_params (Some ["a"; "b"]) /\
  cache_key demo_hash "SELECT 1" (Some [" a "; "b"])
    <> cache_key demo_hash "SELECT 1" (Some ["a"; "b"]).
Proof.
  split; [reflexivity|]. split; [discriminate|].
  apply (raw_params_two_entries demo_hash demo_clock "SELECT 1"
           (Some [" a "; "b"]) (Some ["a"; "b"]) demo_db fresh);
    [reflexivity | discriminate | reflexivity | reflexivity | reflexivity].
Defined.

(** C3. Without a connection [query] raises the error "Not connected to
    database" for every text and parameter list, and leaves the manager,
    its cache included, and the world as they were. *)
Theorem query_requires_connection hash clock sql params db w :
  is_connected db = false ->
  query hash clock sql params (db, w)
  = (Raise (mkExn RuntimeError "Not connected to database"), (db, w)).
Proof.
  intros Hc. unfold query, Eff.bind, self, Eff.raise. simpl. by rewrite Hc.
Qed.

Lemma query_requires_connection_witness :
  is_connected (init "postgresql://localhost:5432/mydb") = false /\
  query demo_hash demo_clock "SELECT 1" None
        (init "postgresql://localhost:5432/mydb", fresh)
  = (Raise (mkExn RuntimeError "Not connected to database"),
     (init "postgresql://localhost:5432/mydb", fresh)).
Proof.
  split; [reflexivity|].
  apply (query_requires_connection demo_hash demo_clock "SELECT 1" None
           (init "postgresql://localhost:5432/mydb") fresh).
  reflexivity.
Defined.

(** C4, as amended.  On a miss [query], with a missing parameter list
    taken as the empty one, returns and stores under the derived key the
    record with the text unchanged, with the stripped forms, in order, of
    the entries that are non-empty before stripping, with a fresh timestamp
    and with the length of that list as [rows_affected].  That list is the
    one the wording describes whenever no non-empty entry consists of
    whitespace only. *)
Theorem query_miss_record hash clock sql params db w :
  is_connected db = true ->
  _cache db !! cache_key hash sql params = None ->
  exists r db' w',
    query hash clock sql params (db, w) = (Ret r, (db', w')) /\
    sql_of r = sql /\
    params_of r = map Py.strip (List.filter Py.nonempty (or_empty params)) /\
    rows_affected r = length (params_of r) /\
    timestamp_of r = clock (clock_reads w) /\
    _cache db' = <[cache_key hash sql params := r]> (_cache db) /\
    or_empty None = [] /\
    (Forall (fun p => Py.nonempty p = true -> Py.nonempty (Py.strip p) = true)
            (or_empty params) ->
     params_of r = cleaned_as_worded params).
Proof.
  intros Hc Hmiss.
  pose proof (query_on_miss hash clock sql params db w Hc Hmiss) as Hrun.
  simpl in Hrun.
  match type of Hrun with _ = (Ret ?x, (?d, ?y)) => exists x, d, y end.
  split; [exact Hrun|]. simpl. repeat split.
  apply cleaned_params_as_worded.
Qed.

Lemma query_miss_record_witness :
  is_connected demo_db = true /\
  _cache demo_db !! cache_key demo_hash "SELECT 1" (Some [" a "; ""; "b"]) = None /\
  exists r db' w',
    query demo_hash demo_clock "SELECT 1" (Some [" a "; ""; "b"]) (demo_db, fresh)
      = (Ret r, (db', w')) /\
    params_of r = ["a"; "b"] /\ rows_affected r = 2.
Proof.
  split; [reflexivity|]. split; [reflexivity|].
  destruct (query_miss_record demo_hash demo_clock "SELECT 1"
              (Some [" a "; ""; "b"]) demo_db fresh eq_refl eq_refl)
    as (r & db' & w' & Hrun & _ & Hp & Hn & _).
  exists r, db', w'. split; [exact Hrun|].
  split; [exact Hp|]. rewrite Hn, Hp. reflexivity.
Defined.

(** C4 as worded fails: an entry of two spaces is non-empty, so it is kept
    and stripped to the empty string, where the wording drops it. *)
Lemma query_miss_blank_entry_counterexample :
  ~ (forall hash clock sql params db w r st,
        is_connected db = true ->
        _cache db !! cache_key hash sql params = None ->
        query hash clock sql params (db, w) = (Ret r, st) ->
        params_of r = cleaned_as_worded params /\
        rows_affected r = length (cleaned_as_worded params)).
Proof.
  intros H.
  destruct (H demo_hash demo_clock "SELECT 1" (Some ["  "]) demo_db fresh
              _ _ eq_refl eq_refl eq_refl) as [Hp _].
  vm_compute in Hp. discriminate Hp.
Qed.

(** ** connect *)

(** C9. In normal operation of the standard output [connect] returns
    [True] with the flag set, after one attempt: the line of the attempt and
    the closing line are all it prints, the line that reports a failure is
    not among them. *)
Theorem connect_sets_flag db w :
  quiet w ->
  exists db' w',
    connect (db, w) = (Ret true, (db', w')) /\
    is_connected db' = true /\
    connection db' = connection db /\
    _cache db' = _cache db /\
    printed w w' ["Connecting to: " +:+ connection db;
                  "Connection attempt completed"].
Proof.
  intros Hq. destruct (connect_quiet db w Hq) as (w' & Hrun & Hpr).
  eexists _, w'. split; [exact Hrun|]. simpl. auto.
Qed.

Lemma connect_sets_flag_witness :
  quiet fresh /\
  exists db' w',
    connect (init "postgresql://localhost:5432/mydb", fresh)
      = (Ret true, (db', w')) /\
    is_connected db' = true.
Proof.
  split; [constructor|].
  destruct (connect_sets_flag (init "postgresql://localhost:5432/mydb") fresh
              quiet_fresh) as (db' & w' & Hrun & Hflag & _).
  exists db', w'. split; assumption.
Defined.

(** ** The type dispatcher *)

Lemma emits_at {h} pre item post w t :
  quiet w ->
  forallb (transformable h) pre = true ->
  forallb (transformable h) post = true ->
  has_value item = true ->
  processed_of h item = Ret t ->
  emits h (pre ++ item :: post) w (length (valued pre)) (item_line (length pre) t).
Proof.
  intros Hq Hpre Hpost Hv Ht.
  destruct (process_data_at pre item post w t Hq Hpre Hpost Hv Ht)
    as (o1 & o2 & w' & Hrun & Hl1 & _).
  exists (o1 ++ item_line (length pre) t :: o2), w'.
  split; [exact Hrun|]. by apply list_lookup_middle.
Qed.

Lemma processed_of_eq {h} item tag v :
  item !! "type" = Some tag ->
  item !! "value" = Some v ->
  processed_of h item = dispatch h tag v.
Proof.
  intros Ht Hv. unfold processed_of.
  by rewrite (dict_get_present _ _ _ Ht), (dict_get_present _ _ _ Hv).
Qed.

(** Printing an atom needs no room for nesting. *)
Lemma py_repr_atom h d v :
  match v with VList _ | VDict _ => False | _ => True end ->
  py_repr h d v =
  match v with
  | VInt n => int_str h n
  | VStr s => Ret (Py.repr_str s)
  | VBool true => Ret "True"
  | VBool false => Ret "False"
  | _ => Ret "None"
  end.
Proof. destruct d, v as [|[]| | | |]; simpl; tauto. Qed.

Lemma py_str_bool h b : py_str h (VBool b) = Ret (if b then "True" else "False").
Proof. unfold py_str. rewrite py_repr_atom by done. by destruct b. Qed.

Lemma py_str_int h n :
  int_printable h n = true -> py_str h (VInt n) = Ret (pretty n).
Proof.
  intros Hp. unfold py_str. rewrite py_repr_atom by done.
  unfold int_str. by rewrite Hp.
Qed.

Lemma processed_of_default {h} item :
  item !! "type" <> Some (VStr "string") ->
  item !! "type" <> Some (VStr "number") ->
  item !! "type" <> Some (VStr "boolean") ->
  processed_of h item
  = map_outcome (String.append "Unknown: ") (py_str h (dict_get item "value")).
Proof.
  intros Hs Hn Hb. unfold processed_of, dispatch.
  by rewrite (tag_is_not _ _ Hs), (tag_is_not _ _ Hn), (tag_is_not _ _ Hb).
Qed.

(** C5. A record with a value that is not [None], at any place of a batch
    whose other records can be got past, is dispatched on its tag: under
    "string" a text comes out upper-cased after the label "String: ",
    under "number" an integer comes out doubled after "Number: " when the
    host prints an integer of that many digits, under "boolean" the negated
    truth value comes out after "Boolean: ", and under any other tag, or
    none, the text of the value, when the host can produce it, comes out
    after "Unknown: ".  The line carries the index of the record and
    stands after the lines of the valued records before it. *)
Theorem dispatch_on_tag h pre item post w v :
  quiet w ->
  forallb (transformable h) pre = true ->
  forallb (transformable h) post = true ->
  item !! "value" = Some v ->
  v <> VNone ->
  let items := pre ++ item :: post in
  let i := length pre in
  let k := length (valued pre) in
  (forall s, item !! "type" = Some (VStr "string") -> v = VStr s ->
     emits h items w k (item_line i ("String: " +:+ Py.upper s))) /\
  (forall n, item !! "type" = Some (VStr "number") -> v = VInt n ->
     int_printable h (n * 2) = true ->
     emits h items w k (item_line i ("Number: " +:+ pretty (n * 2)%Z))) /\
  (item !! "type" = Some (VStr "boolean") ->
     emits h items w k
       (item_line i ("Boolean: " +:+ (if truthy v then "False" else "True")))) /\
  (item !! "type" <> Some (VStr "string") ->
   item !! "type" <> Some (VStr "number") ->
   item !! "type" <> Some (VStr "boolean") ->
   forall t, py_str h v = Ret t ->
     emits h items w k (item_line i ("Unknown: " +:+ t))).
Proof.
  intros Hq Hpre Hpost Hv Hnn items i k.
  pose proof (has_value_present item v Hv Hnn) as Hhas.
  repeat split.
  - intros s Ht ->. apply emits_at; try done.
    by rewrite (processed_of_eq _ _ _ Ht Hv).
  - intros n Ht -> Hp. apply emits_at; try done.
    rewrite (processed_of_eq _ _ _ Ht Hv).
    change (dispatch h (VStr "number") (VInt n))
      with (map_outcome (String.append "Number: ") (py_str h (VInt (n * 2)))).
    by rewrite (py_str_int h _ Hp).
  - intros Ht. apply emits_at; try done.
    rewrite (processed_of_eq _ _ _ Ht Hv).
    change (dispatch h (VStr "boolean") v)
      with (map_outcome (String.append "Boolean: ")
                        (py_str h (VBool (negb (truthy v))))).
    rewrite py_str_bool. by destruct (truthy v).
  - intros Hs Hn Hb t Hstr. apply emits_at; try done.
    rewrite (processed_of_default _ Hs Hn Hb).
    by rewrite (dict_get_present _ _ _ Hv), Hstr.
Qed.

Lemma dispatch_on_tag_witness :
  emits demo_host [ {[ "type" := VStr "string"; "value" := VStr "hello" ]} ] fresh 0
        "Item 0: String: HELLO" /\
  emits demo_host [ {[ "type" := VStr "number"; "value" := VInt 21 ]} ] fresh 0
        "Item 0: Number: 42" /\
  emits demo_host [ {[ "type" := VStr "boolean"; "value" := VBool true ]} ] fresh 0
        "Item 0: Boolean: False" /\
  emits demo_host [ {[ "value" := VList [VInt 1; VInt 2; VInt 3] ]} ] fresh 0
        "Item 0: Unknown: [1, 2, 3]".
Proof.
  split; [|split; [|split]].
  - destruct (dispatch_on_tag demo_host []
                {[ "type" := VStr "string"; "value" := VStr "hello" ]} [] fresh
                (VStr "hello") quiet_fresh eq_refl eq_refl)
      as (H & _); [by vm_compute | discriminate |].
    by_evaluation (H "hello").
  - destruct (dispatch_on_tag demo_host []
                {[ "type" := VStr "number"; "value" := VInt 21 ]} [] fresh
                (VInt 21) quiet_fresh eq_refl eq_refl)
      as (_ & H & _); [by vm_compute | discriminate |].
    by_evaluation (H 21%Z).
  - destruct (dispatch_on_tag demo_host []
                {[ "type" := VStr "boolean"; "value" := VBool true ]} [] fresh
                (VBool true) quiet_fresh eq_refl eq_refl)
      as (_ & _ & H & _); [by vm_compute | discriminate |].
    by_evaluation H.
  - destruct (dispatch_on_tag demo_host []
                {[ "value" := VList [VInt 1; VInt 2; VInt 3] ]} [] fresh
                (VList [VInt 1; VInt 2; VInt 3]) quiet_fresh eq_refl eq_refl)
      as (_ & _ & _ & H); [by vm_compute | discriminate |].
    specialize (fun a b c => H a b c "[1, 2, 3]").
    by_evaluation H.
Defined.

Lemma has_value_absent item :
  item !! "value" = None \/ item !! "value" = Some VNone ->
  has_value item = false.
Proof. unfold has_value. by intros [-> | ->]. Qed.

(** C6. A record whose "value" is absent or [None], at any place of a
    batch whose other records can be got past, adds no entry to the output
    and exactly one diagnostic to what is printed, and the records after it
    are processed: the output is the lines of the valued records before it
    followed by the lines of those after it, with their own indices. *)
Theorem missing_value_skipped h pre item post w :
  quiet w ->
  forallb (transformable h) pre = true ->
  forallb (transformable h) post = true ->
  item !! "value" = None \/ item !! "value" = Some VNone ->
  exists o1 o2 w',
    process_data h (pre ++ item :: post) w = (Ret (o1 ++ o2), w') /\
    Forall2 (line_of h) (valued pre) o1 /\
    Forall2 (line_of h) (valued_from (S (length pre)) post) o2 /\
    printed w w' (map (fun _ => diagnostic) (missing pre)
                  ++ [diagnostic]
                  ++ map (fun _ => diagnostic) (missing post)).
Proof.
  intros Hq Hpre Hpost Habs.
  pose proof (has_value_absent item Habs) as Hv.
  assert (Hall : forallb (transformable h) (pre ++ item :: post) = true).
  { rewrite forallb_app. simpl. rewrite Hpre, Hpost.
    unfold transformable. by rewrite Hv. }
  destruct (process_data_ok _ w Hq Hall) as (out & w' & Hrun & Hlines & Hpr).
  unfold valued in Hlines. rewrite valued_from_app in Hlines.
  apply Forall2_app_inv_l in Hlines as (o1 & o2 & H1 & H2 & ->).
  unfold valued_from in H2. simpl in H2. rewrite Hv in H2.
  replace (S (length pre)) with (S (0 + length pre)) by lia.
  exists o1, o2, w'. split; [exact Hrun|]. split; [exact H1|].
  split; [exact H2|].
  rewrite missing_app in Hpr. unfold missing in Hpr at 2.
  simpl in Hpr. rewrite Hv in Hpr. simpl in Hpr.
  by rewrite map_app in Hpr.
Qed.

Lemma missing_value_skipped_witness :
  exists w',
    process_data demo_host [ {[ "type" := VStr "string" ]};
                   {[ "type" := VStr "number"; "value" := VInt 21 ]} ] fresh
    = (Ret ["Item 1: Number: 42"], w') /\
    stdout w' = [diagnostic].
Proof.
  destruct (missing_value_skipped demo_host [] {[ "type" := VStr "string" ]}
              [ {[ "type" := VStr "number"; "value" := VInt 21 ]} ] fresh
              quiet_fresh eq_refl)
    as (o1 & o2 & w' & Hrun & H1 & H2 & Hpr & _);
    [by vm_compute | left; by vm_compute |].
  exists w'. split; [|exact Hpr].
  cbn [app] in Hrun. rewrite Hrun. f_equal. f_equal.
  apply Forall2_nil_inv_l in H1 as ->.
  apply Forall2_cons_inv_l in H2 as (line & o & (t & Ht & ->) & Ho & ->).
  apply Forall2_nil_inv_l in Ho as ->.
  vm_compute in Ht. injection Ht as <-. by vm_compute.
Defined.

(** C7. When every record of the batch can be got past, the output has one
    line for each record with a value and no other line, in the order of
    the input, and the line of a record carries the index the record has in
    the input: the indices of the records without a value do not occur and
    the later ones are not renumbered. *)
Theorem output_follows_input h items w :
  quiet w ->
  forallb (transformable h) items = true ->
  exists out w',
    process_data h items w = (Ret out, w') /\
    Forall2 (line_of h) (valued items) out /\
    (forall j item, items !! j = Some item -> has_value item = true ->
       exists k, valued items !! k = Some (j, item)) /\
    (forall k j item, valued items !! k = Some (j, item) ->
       items !! j = Some item /\ has_value item = true) /\
    (forall k1 k2 j1 j2 it1 it2, k1 < k2 ->
       valued items !! k1 = Some (j1, it1) ->
       valued items !! k2 = Some (j2, it2) -> j1 < j2).
Proof.
  intros Hq Hall.
  destruct (process_data_ok items w Hq Hall) as (out & w' & Hrun & Hlines & _).
  exists out, w'. split; [exact Hrun|]. split; [exact Hlines|].
  split; [|split].
  - intros j item Hj Hv. apply (valued_from_complete items 0 j item Hj Hv).
  - intros k j item Hk.
    apply valued_from_lookup in Hk as (n & -> & Hn & Hv). by split.
  - apply valued_from_increasing.
Qed.

Lemma output_follows_input_witness :
  exists w',
    process_data demo_host sample_data fresh
    = (Ret ["Item 0: String: HELLO WORLD"; "Item 1: Number: 84";
            "Item 2: Boolean: False"; "Item 3: Unknown: [1, 2, 3]"], w').
Proof.
  destruct (output_follows_input demo_host sample_data fresh quiet_fresh)
    as (out & w' & Hrun & _); [by vm_compute|].
  exists w'. rewrite Hrun. f_equal.
  pose proof process_sample_data as Hs. rewrite Hrun in Hs.
  by injection Hs as -> _.
Defined.

(** [int] and [bool] are the numeric types among the values modelled. *)
Definition is_numeric (v : pyval) : bool :=
  match v with
  | VInt _ | VBool _ => true
  | _ => false
  end.

(** C8 as worded fails: a text is not numeric, and under "number" it is
    repeated, not refused. *)
Lemma number_tag_text_counterexample :
  ~ (forall h item v w,
        item !! "type" = Some (VStr "number") ->
        item !! "value" = Some v ->
        v <> VNone ->
        is_numeric v = false ->
        exists e w', process_data h [item] w = (Raise e, w')).
Proof.
  intros H.
  destruct (H demo_host {[ "type" := VStr "number"; "value" := VStr "ab" ]}
              (VStr "ab") fresh) as (e & w' & Hrun);
    [by vm_compute | by vm_compute | discriminate | reflexivity |].
  vm_compute in Hrun. discriminate Hrun.
Qed.

Example number_tag_repeats_text :
  process_data demo_host [ {[ "type" := VStr "number"; "value" := VStr "ab" ]} ] fresh
  = (Ret ["Item 0: Number: abab"], fresh).
Proof. vm_compute. reflexivity. Qed.

(** C8, as amended.  Under "number" a value that is not a number does not
    always fail: a text comes out repeated after "Number: ", a list is
    repeated and what comes out, text or exception, is what printing the
    repeated list gives, and a [dict], having no multiplication by an
    integer, raises [TypeError]; a [bool] counts as the integer 0 or 1 and
    comes out doubled.  Under "string" a value that is not a text
    raises [AttributeError].  A record that fails is not isolated: when the
    records before it can be got past, the batch ends with the exception of
    that record and without an output, whatever follows. *)
Theorem transformation_failure_aborts h :
  (forall item s,
      item !! "type" = Some (VStr "number") ->
      item !! "value" = Some (VStr s) ->
      processed_of h item = Ret ("Number: " +:+ s +:+ s)) /\
  (forall item l,
      item !! "type" = Some (VStr "number") ->
      item !! "value" = Some (VList l) ->
      processed_of h item
      = map_outcome (String.append "Number: ") (py_str h (VList (l ++ l)))) /\
  (forall item d,
      item !! "type" = Some (VStr "number") ->
      item !! "value" = Some (VDict d) ->
      processed_of h item
      = Raise (mkExn TypeError
                 "unsupported operand type(s) for *: 'dict' and 'int'")) /\
  (forall item b,
      item !! "type" = Some (VStr "number") ->
      item !! "value" = Some (VBool b) ->
      processed_of h item = Ret ("Number: " +:+ (if b then "2" else "0"))) /\
  (forall item v,
      item !! "type" = Some (VStr "string") ->
      item !! "value" = Some v ->
      (forall s, v <> VStr s) ->
      processed_of h item
      = Raise (mkExn AttributeError
                 ("'" +:+ type_name v +:+ "' object has no attribute 'upper'"))) /\
  (forall pre bad post w,
      quiet w ->
      forallb (transformable h) pre = true ->
      transformable h bad = false ->
      exists e w',
        processed_of h bad = Raise e /\
        process_data h (pre ++ bad :: post) w = (Raise e, w') /\
        printed w w' (map (fun _ => diagnostic) (missing pre))).
Proof.
  split; [|split; [|split; [|split; [|split]]]].
  - intros item s Ht Hv. by rewrite (processed_of_eq _ _ _ Ht Hv).
  - intros item l Ht Hv. by rewrite (processed_of_eq _ _ _ Ht Hv).
  - intros item d Ht Hv. by rewrite (processed_of_eq _ _ _ Ht Hv).
  - intros item b Ht Hv. rewrite (processed_of_eq _ _ _ Ht Hv).
    change (dispatch h (VStr "number") (VBool b))
      with (map_outcome (String.append "Number: ")
                        (py_str h (VInt (Z.b2z b * 2)))).
    rewrite py_str_int; [by destruct b|].
    unfold int_printable.
    destruct b, (int_max_str_digits h) as [|[|m]]; reflexivity.
  - intros item v Ht Hv Hns. rewrite (processed_of_eq _ _ _ Ht Hv).
    destruct v; try done. by destruct (Hns s).
  - intros pre bad post w Hq Hpre Hbad.
    unfold transformable in Hbad.
    destruct (has_value bad) eqn:Hv; [|discriminate]. simpl in Hbad.
    destruct (processed_of h bad) as [t|e] eqn:He; [discriminate|].
    destruct (process_loop_ok pre 0 [] w Hq Hpre)
      as (out & w' & Hrun & _ & Hpr).
    exists e, w'. split; [done|]. split; [|exact Hpr].
    unfold process_data. rewrite process_loop_app, Hrun.
    by apply process_loop_raise.
Qed.

Lemma transformation_failure_aborts_witness :
  processed_of demo_host {[ "type" := VStr "number"; "value" := VStr "ab" ]}
  = Ret "Number: abab" /\
  processed_of demo_host
    {[ "type" := VStr "number"; "value" := VList [VInt 1; VStr "a"] ]}
  = Ret "Number: [1, 'a', 1, 'a']" /\
  exists w',
    process_data demo_host [ {[ "type" := VStr "string" ]};
                   {[ "type" := VStr "number"; "value" := VDict [] ]};
                   {[ "type" := VStr "number"; "value" := VInt 21 ]} ] fresh
    = (Raise (mkExn TypeError
                "unsupported operand type(s) for *: 'dict' and 'int'"), w') /\
    stdout w' = [diagnostic].
Proof.
  destruct (transformation_failure_aborts demo_host)
    as (Hs & Hl & _ & _ & _ & H).
  split; [|split].
  - by_evaluation (Hs {[ "type" := VStr "number"; "value" := VStr "ab" ]} "ab").
  - by_evaluation (Hl {[ "type" := VStr "number";
                         "value" := VList [VInt 1; VStr "a"] ]}
                      [VInt 1; VStr "a"]).
  - destruct (H [ {[ "type" := VStr "string" ]} ]
                {[ "type" := VStr "number"; "value" := VDict [] ]}
                [ {[ "type" := VStr "number"; "value" := VInt 21 ]} ]
                fresh quiet_fresh)
      as (e & w' & He & Hrun & Hout & _); [by vm_compute | by vm_compute |].
    exists w'. split; [|exact Hout].
    cbn [app] in Hrun. rewrite Hrun. f_equal. f_equal.
    vm_compute in He. by injection He as <-.
Defined.

(** C10. The test for a value is a test against [None], not a truth test:
    a record whose value is present, not [None] and false as a truth value
    ([False], [0], the empty text) is transformed.  At any place of a batch
    whose other records can be got past it adds its one line, with its
    index, and no diagnostic. *)
Theorem falsy_value_is_transformed h pre item post w v t :
  quiet w ->
  forallb (transformable h) pre = true ->
  forallb (transformable h) post = true ->
  item !! "value" = Some v ->
  v <> VNone ->
  truthy v = false ->
  processed_of h item = Ret t ->
  exists o1 o2 w',
    process_data h (pre ++ item :: post) w
      = (Ret (o1 ++ item_line (length pre) t :: o2), w') /\
    length o1 = length (valued pre) /\
    length o2 = length (valued post) /\
    printed w w' (map (fun _ => diagnostic) (missing pre ++ missing post)).
Proof.
  intros Hq Hpre Hpost Hv Hnn _ Ht.
  apply process_data_at; try done.
  by apply (has_value_present item v).
Qed.

Lemma falsy_value_is_transformed_witness :
  exists o1 o2 w',
    process_data demo_host [ {[ "type" := VStr "boolean"; "value" := VBool false ]};
                   {[ "type" := VStr "number"; "value" := VInt 0 ]};
                   {[ "type" := VStr "string"; "value" := VStr EmptyString ]} ]
                 fresh
    = (Ret (o1 ++ "Item 1: Number: 0" :: o2), w') /\
    length o1 = 1 /\ length o2 = 1 /\ stdout w' = [].
Proof.
  destruct (falsy_value_is_transformed demo_host
              [ {[ "type" := VStr "boolean"; "value" := VBool false ]} ]
              {[ "type" := VStr "number"; "value" := VInt 0 ]}
              [ {[ "type" := VStr "string"; "value" := VStr EmptyString ]} ]
              fresh (VInt 0) "Number: 0" quiet_fresh)
    as (o1 & o2 & w' & Hrun & H1 & H2 & Hout & _);
    [by vm_compute | by vm_compute | by vm_compute | discriminate
    | reflexivity | by vm_compute |].
  exists o1, o2, w'.
  split; [exact Hrun|]. split; [exact H1|]. split; [exact H2|exact Hout].
Defined.


(** * Further properties of the code *)

(** ** Text: separators and the characters of a printed number *)

Fixpoint all_chars (P : ascii -> bool) (s : string) : bool :=
  match s with
  | EmptyString => true
  | String c s' => P c && all_chars P s'
  end.

(** The characters a printed integer is made of. *)
Definition is_numeral (c : ascii) : bool :=
  let n := Py.ord c in ((n =? 45) || ((48 <=? n) && (n <=? 57)))%nat.

Lemma app_nil_l_str (t : string) : EmptyString +:+ t = t.
Proof. reflexivity. Qed.

Lemma app_cons_str a (s t : string) : String a s +:+ t = String a (s +:+ t).
Proof. reflexivity. Qed.

Lemma app_assoc_str (s t u : string) : (s +:+ t) +:+ u = s +:+ (t +:+ u).
Proof.
  induction s as [|a s IH]; [done|].
  by rewrite !app_cons_str, IH.
Qed.

Lemma length_app_str (s t : string) :
  String.length (s +:+ t) = String.length s + String.length t.
Proof.
  induction s as [|a s IH]; [done|].
  rewrite app_cons_str. simpl. by rewrite IH.
Qed.

Lemma app_inv_tail_str (u s s' : string) : s +:+ u = s' +:+ u -> s = s'.
Proof.
  revert s'. induction s as [|a s IH]; intros [|a' s'] H.
  - done.
  - apply (f_equal String.length) in H.
    rewrite app_nil_l_str, app_cons_str in H. simpl in H.
    rewrite length_app_str in H. lia.
  - apply (f_equal String.length) in H.
    rewrite app_nil_l_str, app_cons_str in H. simpl in H.
    rewrite length_app_str in H. lia.
  - rewrite !app_cons_str in H. injection H as -> H. f_equal. by apply IH.
Qed.

Lemma contains_app c (s t : string) :
  Py.contains c (s +:+ t) = Py.contains c s || Py.contains c t.
Proof.
  induction s as [|a s IH]; [done|].
  rewrite app_cons_str. simpl. by rewrite IH, orb_assoc.
Qed.

Lemma contains_all_chars P c s :
  all_chars P s = true -> P c = false -> Py.contains c s = false.
Proof.
  intros Hall Hc. induction s as [|a s IH]; [done|].
  simpl in *. apply andb_true_iff in Hall as [Ha Hs].
  rewrite (IH Hs), orb_false_r.
  destruct (Ascii.eqb_spec c a) as [->|]; [congruence|done].
Qed.

(** A separator that does not occur before it cuts a text in one way. *)
Lemma app_sep_first c s1 : forall s2 t1 t2,
  Py.contains c s1 = false ->
  Py.contains c s2 = false ->
  s1 +:+ String c t1 = s2 +:+ String c t2 ->
  s1 = s2 /\ t1 = t2.
Proof.
  induction s1 as [|a s1 IH]; intros [|a' s2] t1 t2 H1 H2 H.
  - by injection H.
  - rewrite app_nil_l_str, app_cons_str in H. injection H as <- _.
    simpl in H2. by rewrite Ascii.eqb_refl in H2.
  - rewrite app_nil_l_str, app_cons_str in H. injection H as -> _.
    simpl in H1. by rewrite Ascii.eqb_refl in H1.
  - rewrite !app_cons_str in H. injection H as -> H.
    simpl in H1, H2.
    apply orb_false_iff in H1 as [_ H1]. apply orb_false_iff in H2 as [_ H2].
    destruct (IH s2 t1 t2 H1 H2 H) as [-> ->]. done.
Qed.

(** A separator that does not occur after it cuts a text in one way. *)
Lemma app_sep_last c s1 : forall s2 t1 t2,
  Py.contains c t1 = false ->
  Py.contains c t2 = false ->
  s1 +:+ String c t1 = s2 +:+ String c t2 ->
  s1 = s2 /\ t1 = t2.
Proof.
  induction s1 as [|a s1 IH]; intros [|a' s2] t1 t2 H1 H2 H.
  - by injection H.
  - rewrite app_nil_l_str, app_cons_str in H. injection H as _ ->.
    rewrite contains_app in H1. simpl in H1.
    by rewrite Ascii.eqb_refl, orb_true_r in H1.
  - rewrite app_nil_l_str, app_cons_str in H. injection H as _ <-.
    rewrite contains_app in H2. simpl in H2.
    by rewrite Ascii.eqb_refl, orb_true_r in H2.
  - rewrite !app_cons_str in H. injection H as -> H.
    destruct (IH s2 t1 t2 H1 H2 H) as [-> ->]. done.
Qed.

Lemma pretty_N_char_numeral x : is_numeral (pretty_N_char x) = true.
Proof. unfold pretty_N_char. by repeat case_match. Qed.

Lemma pretty_N_go_numeral x : forall s,
  all_chars is_numeral s = true ->
  all_chars is_numeral (pretty_N_go x s) = true.
Proof.
  induction (N.lt_wf_0 x) as [x _ IH]; intros s Hs.
  destruct (decide (x = 0)%N) as [->|Hx].
  - by rewrite pretty_N_go_0.
  - rewrite pretty_N_go_step by lia.
    apply IH.
    + apply N.div_lt; lia.
    + simpl. by rewrite pretty_N_char_numeral, Hs.
Qed.

Lemma pretty_N_numeral (x : N) : all_chars is_numeral (pretty x) = true.
Proof.
  unfold pretty, pretty_N. case_decide; [done|].
  by apply pretty_N_go_numeral.
Qed.

Lemma pretty_nat_numeral (n : nat) : all_chars is_numeral (pretty n) = true.
Proof. apply pretty_N_numeral. Qed.

Lemma pretty_Z_numeral (z : Z) : all_chars is_numeral (pretty z) = true.
Proof.
  destruct z as [|p|p]; [done|apply pretty_N_numeral|].
  unfold pretty, pretty_Z. rewrite app_cons_str, app_nil_l_str. simpl.
  apply pretty_N_numeral.
Qed.

(** ** query: what it does in every world *)

(** The three ways through [query]. *)
Lemma query_cases hash clock sql params db w :
  query hash clock sql params (db, w) =
  if negb (is_connected db)
  then (Raise (mkExn RuntimeError "Not connected to database"), (db, w))
  else
    match _cache db !! cache_key hash sql params with
    | Some r =>
        match print "Cache hit!" w with
        | (Ret _, w') => (Ret r, (db, w'))
        | (Raise e, w') => (Raise e, (db, w'))
        end
    | None =>
        let r := mkResult sql (cleaned_params params) (clock (clock_reads w))
                          (length (cleaned_params params)) in
        (Ret r,
         (mkDB (connection db)
               (<[cache_key hash sql params := r]> (_cache db))
               (is_connected db),
          mkWorld (stdout w) (S (clock_reads w)) (faults w)))
    end.
Proof.
  unfold query, Eff.bind, self, Eff.raise. simpl.
  destruct (is_connected db) eqn:Hc; simpl; [|done].
  destruct (_cache db !! cache_key hash sql params) as [r|]; simpl.
  - unfold Eff.on_world, Eff.ret. simpl.
    by destruct (print "Cache hit!" w) as [[[]|e] w'].
  - unfold Eff.ret. by rewrite Hc.
Qed.

(** X1. Whatever the outcome of a call of [query], and whatever the
    standard output does, the entries the cache held are still there with
    their values, and the connection string and the flag are untouched:
    [query] never evicts, never overwrites and never disconnects. *)
Theorem query_keeps_entries hash clock sql params db w o db' w' :
  query hash clock sql params (db, w) = (o, (db', w')) ->
  _cache db ⊆ _cache db' /\
  connection db' = connection db /\
  is_connected db' = is_connected db.
Proof.
  rewrite query_cases.
  destruct (is_connected db) eqn:Hc; simpl.
  - destruct (_cache db !! cache_key hash sql params) as [r|] eqn:Hk.
    + destruct (print "Cache hit!" w) as [[[]|e] w1];
        intros [= <- <- <-]; by rewrite Hc.
    + intros [= <- <- <-]. simpl. split; [|done].
      by apply insert_subseteq.
  - intros [= <- <- <-]. by rewrite Hc.
Qed.

Lemma query_keeps_entries_witness :
  exists o db' w',
    query demo_hash demo_clock "SELECT 1" (Some ["a"]) (demo_db, fresh)
      = (o, (db', w')) /\
    _cache demo_db ⊆ _cache db' /\ is_connected db' = true.
Proof.
  destruct (query demo_hash demo_clock "SELECT 1" (Some ["a"]) (demo_db, fresh))
    as [o [db' w']] eqn:Hrun.
  exists o, db', w'. split; [reflexivity|].
  destruct (query_keeps_entries demo_hash demo_clock "SELECT 1" (Some ["a"])
              demo_db fresh o db' w' Hrun) as (Hsub & _ & Hc).
  split; [exact Hsub|exact Hc].
Defined.

(** X2. The cache grows by exactly one entry on a call that is connected
    and misses, the entry being the record returned under the derived key;
    every other call leaves the cache as it was. *)
Theorem query_cache_growth hash clock sql params db w o db' w' :
  query hash clock sql params (db, w) = (o, (db', w')) ->
  (is_connected db = true ->
   _cache db !! cache_key hash sql params = None ->
   size (_cache db') = S (size (_cache db)) /\
   exists r, o = Ret r /\ _cache db' !! cache_key hash sql params = Some r) /\
  (is_connected db = false \/
   is_Some (_cache db !! cache_key hash sql params) ->
   _cache db' = _cache db).
Proof.
  rewrite query_cases. split.
  - intros Hc Hk. rewrite Hc, Hk in H. simpl in H.
    injection H as <- <- <-. simpl. split.
    + by apply map_size_insert_None.
    + eexists. split; [done|]. apply lookup_insert_eq.
  - intros [Hc|[r Hk]].
    + rewrite Hc in H. simpl in H. by injection H as <- <- <-.
    + destruct (is_connected db); simpl in H.
      * rewrite Hk in H.
        destruct (print "Cache hit!" w) as [[[]|e] w1];
          by injection H as <- <- <-.
      * by injection H as <- <- <-.
Qed.

Lemma query_cache_growth_witness :
  exists o db' w',
    query demo_hash demo_clock "SELECT 1" (Some ["a"]) (demo_db, fresh)
      = (o, (db', w')) /\
    size (_cache db') = 1.
Proof.
  destruct (query demo_hash demo_clock "SELECT 1" (Some ["a"]) (demo_db, fresh))
    as [o [db' w']] eqn:Hrun.
  exists o, db', w'. split; [reflexivity|].
  destruct (query_cache_growth demo_hash demo_clock "SELECT 1" (Some ["a"])
              demo_db fresh o db' w' Hrun) as (Hgrow & _).
  destruct (Hgrow eq_refl eq_refl) as (Hsize & _). exact Hsize.
Defined.

Lemma cache_key_inj_keys hash sql1 p1 sql2 p2 :
  hash sql1 = hash sql2 ->
  hash (str_params p1) = hash (str_params p2) ->
  cache_key hash sql1 p1 = cache_key hash sql2 p2.
Proof. intros H1 H2. unfold cache_key. by rewrite H1, H2. Qed.

(** X3. Two calls address the same cache entry exactly when the hash of
    the two texts and the hash of the two raw parameter texts coincide. *)
Theorem cache_key_inj hash sql1 p1 sql2 p2 :
  cache_key hash sql1 p1 = cache_key hash sql2 p2 <->
  hash sql1 = hash sql2 /\ hash (str_params p1) = hash (str_params p2).
Proof.
  split.
  - unfold cache_key. intros H. apply String.app_inj in H.
    assert (Hsep : forall z : Z, Py.contains "_" (pretty z) = false).
    { intros z. apply (contains_all_chars is_numeral);
        [apply pretty_Z_numeral | reflexivity]. }
    change ("_" +:+ ?x) with (String "_" x) in H.
    apply app_sep_first in H as [H1 H2]; [|apply Hsep..].
    split; by apply pretty_Z_inj.
  - intros [H1 H2]. unfold cache_key. by rewrite H1, H2.
Qed.

(** X4. A hit returns what is stored under the key, not what the call
    describes: when the hashes of two calls collide, the second call is
    answered with the record of the first, text and parameters of the first
    call included. *)
Theorem colliding_query_gets_first_record hash clock sql1 p1 sql2 p2 db w :
  hash sql1 = hash sql2 ->
  hash (str_params p1) = hash (str_params p2) ->
  is_connected db = true ->
  _cache db !! cache_key hash sql1 p1 = None ->
  quiet w ->
  exists r db1 w1 w2,
    query hash clock sql1 p1 (db, w) = (Ret r, (db1, w1)) /\
    query hash clock sql2 p2 (db1, w1) = (Ret r, (db1, w2)) /\
    sql_of r = sql1 /\
    params_of r = cleaned_params p1.
Proof.
  intros Hs Hp Hc Hk Hq.
  assert (Hkey : cache_key hash sql2 p2 = cache_key hash sql1 p1).
  { symmetry. by apply cache_key_inj_keys. }
  pose proof (query_on_miss hash clock sql1 p1 db w Hc Hk) as Hrun1.
  simpl in Hrun1.
  match type of Hrun1 with _ = (Ret ?x, (?d, ?y)) =>
    set (r := x) in *; set (db1 := d) in *; set (w1 := y) in * end.
  assert (Hk1 : _cache db1 !! cache_key hash sql2 p2 = Some r).
  { rewrite Hkey. apply lookup_insert_eq. }
  destruct (query_on_hit hash clock sql2 p2 db1 w1 r eq_refl Hk1 Hq)
    as (w2 & Hrun2 & _).
  by exists r, db1, w1, w2.
Qed.

Lemma colliding_query_gets_first_record_witness :
  demo_hash "SELECT 1" = demo_hash "SELECT 2" /\
  exists r db1 w1 w2,
    query demo_hash demo_clock "SELECT 1" (Some ["a"]) (demo_db, fresh)
      = (Ret r, (db1, w1)) /\
    query demo_hash demo_clock "SELECT 2" (Some ["b"]) (db1, w1)
      = (Ret r, (db1, w2)) /\
    sql_of r = "SELECT 1" /\
    params_of r = ["a"].
Proof.
  split; [reflexivity|].
  apply (colliding_query_gets_first_record demo_hash demo_clock
           "SELECT 1" (Some ["a"]) "SELECT 2" (Some ["b"]) demo_db fresh);
    [reflexivity | reflexivity | reflexivity | reflexivity | constructor].
Defined.

(** X5. In normal operation of the standard output [query] raises exactly
    when the manager is not connected. *)
Theorem query_raises_iff_disconnected hash clock sql params db w :
  quiet w ->
  (exists e st, query hash clock sql params (db, w) = (Raise e, st)) <->
  is_connected db = false.
Proof.
  intros Hq. rewrite query_cases. split.
  - intros (e & st & H). destruct (is_connected db); [|done]. simpl in H.
    destruct (_cache db !! cache_key hash sql params) as [r|]; [|done].
    destruct (print_quiet "Cache hit!" w Hq) as (w' & Hp & _).
    by rewrite Hp in H.
  - intros ->. simpl. eauto.
Qed.

Lemma query_raises_iff_disconnected_witness :
  quiet fresh /\
  exists e st,
    query demo_hash demo_clock "SELECT 1" None
          (init "postgresql://localhost:5432/mydb", fresh) = (Raise e, st).
Proof.
  split; [constructor|].
  apply (query_raises_iff_disconnected demo_hash demo_clock "SELECT 1" None
           (init "postgresql://localhost:5432/mydb") fresh quiet_fresh).
  reflexivity.
Defined.

(** X6. A hit whose announcement cannot be written returns no record: the
    exception of the write comes out of [query], and the manager is left as
    it was. *)
Theorem query_hit_write_fault hash clock sql params db w r e fs :
  is_connected db = true ->
  _cache db !! cache_key hash sql params = Some r ->
  faults w = Some e :: fs ->
  query hash clock sql params (db, w)
  = (Raise e, (db, mkWorld (stdout w) (clock_reads w) fs)).
Proof.
  intros Hc Hk Hf. rewrite query_cases, Hc, Hk. simpl.
  unfold print. by rewrite Hf.
Qed.

Lemma query_hit_write_fault_witness :
  exists db r,
    _cache db !! cache_key demo_hash "SELECT 1" None = Some r /\
    query demo_hash demo_clock "SELECT 1" None
          (db, mkWorld [] 0 [Some (mkExn BrokenPipeError "Broken pipe")])
    = (Raise (mkExn BrokenPipeError "Broken pipe"), (db, fresh)).
Proof.
  pose (r := mkResult "SELECT 1" [] "t" 0).
  exists (mkDB "c" {[ cache_key demo_hash "SELECT 1" None := r ]} true), r.
  split; [by vm_compute|].
  apply (query_hit_write_fault demo_hash demo_clock "SELECT 1" None _
           (mkWorld [] 0 [Some (mkExn BrokenPipeError "Broken pipe")]) r
           (mkExn BrokenPipeError "Broken pipe") []);
    [reflexivity | by vm_compute | reflexivity].
Defined.

(** ** The cleaning of the parameters *)

Lemma lstrip_idem s : Py.lstrip (Py.lstrip s) = Py.lstrip s.
Proof.
  induction s as [|c s IH]; [done|]. simpl.
  destruct (Py.is_space c) eqn:Hc; [done|]. simpl. by rewrite Hc.
Qed.

Lemma rstrip_idem s : Py.rstrip (Py.rstrip s) = Py.rstrip s.
Proof.
  induction s as [|c s IH]; [done|]. simpl.
  destruct (Py.rstrip s) as [|d r] eqn:Hr.
  - destruct (Py.is_space c) eqn:Hc; [done|]. simpl. by rewrite Hc.
  - change (Py.rstrip (String c (String d r)))
      with (match Py.rstrip (String d r) with
            | EmptyString =>
                if Py.is_space c then EmptyString else String c EmptyString
            | String a b => String c (String a b)
            end).
    by rewrite IH.
Qed.

(** A text that does not end in whitespace keeps that after [lstrip]. *)
Lemma rstrip_fixed_lstrip s :
  Py.rstrip s = s -> Py.rstrip (Py.lstrip s) = Py.lstrip s.
Proof.
  induction s as [|c s IH]; [done|]. intros H. simpl.
  destruct (Py.is_space c) eqn:Hc; [|exact H].
  apply IH. simpl in H. rewrite Hc in H.
  destruct (Py.rstrip s) as [|d r]; [discriminate|]. by injection H.
Qed.

Lemma strip_idem s : Py.strip (Py.strip s) = Py.strip s.
Proof.
  unfold Py.strip.
  rewrite (rstrip_fixed_lstrip (Py.rstrip s) (rstrip_idem s)).
  apply lstrip_idem.
Qed.

(** X7. The cleaned list is never longer than the list passed, and each of
    its entries is free of surrounding whitespace: stripping it again
    changes nothing. *)
Theorem cleaned_params_stripped params :
  length (cleaned_params params) <= length (or_empty params) /\
  Forall (fun p => Py.strip p = p) (cleaned_params params).
Proof.
  unfold cleaned_params. split.
  - rewrite length_map. apply List.filter_length_le.
  - apply Forall_forall. intros p Hp.
    apply list_elem_of_In, in_map_iff in Hp as (q & <- & _).
    apply strip_idem.
Qed.

(** ** connect and query together *)

(** X8. The life of a manager: as built it refuses every query; after a
    connect in normal operation the same query is answered, with the one
    record it computes as the only entry of the cache. *)
Theorem connect_then_query hash clock cs sql params w :
  quiet w ->
  query hash clock sql params (init cs, w)
  = (Raise (mkExn RuntimeError "Not connected to database"), (init cs, w)) /\
  exists r db1 db2 w1 w2,
    connect (init cs, w) = (Ret true, (db1, w1)) /\
    query hash clock sql params (db1, w1) = (Ret r, (db2, w2)) /\
    _cache db2 = {[ cache_key hash sql params := r ]} /\
    sql_of r = sql /\
    params_of r = cleaned_params params /\
    timestamp_of r = clock (clock_reads w).
Proof.
  intros Hq. split.
  - by rewrite query_cases.
  - destruct (connect_quiet (init cs) w Hq) as (w1 & Hrun & _ & Hclock & _).
    pose proof (query_on_miss hash clock sql params
                  (mkDB cs ∅ true) w1 eq_refl (lookup_empty _)) as Hrun2.
    simpl in Hrun2.
    match type of Hrun2 with _ = (Ret ?x, (?d, ?y)) =>
      exists x, (mkDB cs ∅ true), d, w1, y end.
    split; [exact Hrun|]. split; [exact Hrun2|]. simpl.
    rewrite Hclock. done.
Qed.

Lemma connect_then_query_witness :
  quiet fresh /\
  query demo_hash demo_clock "SELECT 1" (Some [" a "])
        (init "postgresql://localhost:5432/mydb", fresh)
  = (Raise (mkExn RuntimeError "Not connected to database"),
     (init "postgresql://localhost:5432/mydb", fresh)) /\
  exists r db1 db2 w1 w2,
    connect (init "postgresql://localhost:5432/mydb", fresh)
      = (Ret true, (db1, w1)) /\
    query demo_hash demo_clock "SELECT 1" (Some [" a "]) (db1, w1)
      = (Ret r, (db2, w2)) /\
    params_of r = ["a"].
Proof.
  split; [constructor|].
  destruct (connect_then_query demo_hash demo_clock
              "postgresql://localhost:5432/mydb" "SELECT 1" (Some [" a "])
              fresh quiet_fresh)
    as (H0 & r & db1 & db2 & w1 & w2 & H1 & H2 & _ & _ & Hp & _).
  split; [exact H0|].
  exists r, db1, db2, w1, w2. split; [exact H1|]. split; [exact H2|exact Hp].
Defined.

(** ** connect: what it does in every world *)

(** The closing write of [connect], after the outcome [o] of the rest. *)
Definition closing (o : Outcome bool) (db : DatabaseManager) (w : World)
  : Outcome bool * (DatabaseManager * World) :=
  match print "Connection attempt completed" w with
  | (Ret _, w') => (o, (db, w'))
  | (Raise e, w') => (Raise e, (db, w'))
  end.

(** The ways through [connect]. *)
Lemma connect_cases db w :
  connect (db, w) =
  match print ("Connecting to: " +:+ connection db) w with
  | (Ret _, w1) =>
      closing (Ret true) (mkDB (connection db) (_cache db) true) w1
  | (Raise e, w1) =>
      if is_ConnectionError e
      then match print ("Failed to connect: " +:+ exn_msg e) w1 with
           | (Ret _, w2) => closing (Ret false) db w2
           | (Raise e2, w2) => closing (Raise e2) db w2
           end
      else closing (Raise e) db w1
  end.
Proof.
  unfold connect, closing, Eff.try_finally, Eff.try_except, Eff.bind, self,
    Eff.on_world, set_is_connected, Eff.ret. simpl.
  destruct (print ("Connecting to: " +:+ connection db) w) as [[[]|e] w1]; simpl.
  - by destruct (print "Connection attempt completed" w1) as [[[]|e] w2].
  - destruct (is_ConnectionError e); simpl.
    + destruct (print ("Failed to connect: " +:+ exn_msg e) w1)
        as [[[]|e2] w2]; simpl;
        destruct (print "Connection attempt completed" w2) as [[[]|e3] w3];
        by destruct db.
    + destruct (print "Connection attempt completed" w1) as [[[]|e3] w3];
        by destruct db.
Qed.

Lemma print_clock line w o w' :
  print line w = (o, w') -> clock_reads w' = clock_reads w.
Proof.
  unfold print. destruct (faults w) as [|[e|] fs]; by intros [= <- <-].
Qed.

Lemma closing_inv o db w o' db' w' :
  closing o db w = (o', (db', w')) ->
  db' = db /\ clock_reads w' = clock_reads w /\
  (forall b, o' = Ret b -> o = Ret b).
Proof.
  unfold closing.
  destruct (print "Connection attempt completed" w) as [[[]|e] w1] eqn:Hp;
    intros [= <- <- <-]; apply print_clock in Hp; by repeat split.
Qed.

(** X9. Whatever the standard output does, [connect] leaves the connection
    string and the cache alone, reads no clock and never clears the flag.
    When it returns [True] the flag is set; when it returns [False] the
    manager is as it was. *)
Theorem connect_invariants db w o db' w' :
  connect (db, w) = (o, (db', w')) ->
  connection db' = connection db /\
  _cache db' = _cache db /\
  clock_reads w' = clock_reads w /\
  (is_connected db = true -> is_connected db' = true) /\
  (o = Ret true -> is_connected db' = true) /\
  (o = Ret false -> db' = db).
Proof.
  rewrite connect_cases.
  destruct (print ("Connecting to: " +:+ connection db) w)
    as [[[]|e] w1] eqn:Hp1; apply print_clock in Hp1.
  - intros H. apply closing_inv in H as (-> & Hc & Ho). simpl.
    repeat split; try done; [congruence|].
    intros ->. by specialize (Ho false eq_refl).
  - destruct (is_ConnectionError e).
    + destruct (print ("Failed to connect: " +:+ exn_msg e) w1)
        as [[[]|e2] w2] eqn:Hp2; apply print_clock in Hp2;
        intros H; apply closing_inv in H as (-> & Hc & Ho);
        repeat split; try done; try congruence;
        intros ->; by specialize (Ho true eq_refl).
    + intros H; apply closing_inv in H as (-> & Hc & Ho).
      repeat split; try done; try congruence.
      intros ->; by specialize (Ho true eq_refl).
Qed.

Lemma connect_invariants_witness :
  exists o db' w',
    connect (demo_db, mkWorld [] 0 [Some (mkExn OSError "disk")])
      = (o, (db', w')) /\
    _cache db' = _cache demo_db /\ is_connected db' = true.
Proof.
  destruct (connect (demo_db, mkWorld [] 0 [Some (mkExn OSError "disk")]))
    as [o [db' w']] eqn:Hrun.
  exists o, db', w'. split; [reflexivity|].
  destruct (connect_invariants _ _ o db' w' Hrun) as (_ & Hc & _ & Hk & _).
  split; [exact Hc|exact (Hk eq_refl)].
Defined.

(** X10. When the first write raises a connection error, a subclass such
    as [BrokenPipeError] included, and the later writes go through,
    [connect] makes no second attempt: it prints the failure with the text
    of the error, prints the closing line, returns [False] and leaves the
    manager as it was. *)
Theorem connect_reports_connection_error db w e fs :
  faults w = Some e :: fs ->
  is_ConnectionError e = true ->
  Forall (fun f => f = None) fs ->
  exists w',
    connect (db, w) = (Ret false, (db, w')) /\
    stdout w' = stdout w ++ ["Failed to connect: " +:+ exn_msg e;
                             "Connection attempt completed"].
Proof. apply connect_failure. Qed.

Lemma connect_reports_connection_error_witness :
  exists w',
    connect (init "db", mkWorld [] 0 [Some (mkExn BrokenPipeError "Broken pipe")])
      = (Ret false, (init "db", w')) /\
    stdout w' = ["Failed to connect: Broken pipe"; "Connection attempt completed"].
Proof.
  apply (connect_reports_connection_error (init "db")
           (mkWorld [] 0 [Some (mkExn BrokenPipeError "Broken pipe")])
           (mkExn BrokenPipeError "Broken pipe") []);
    [reflexivity | reflexivity | constructor].
Defined.

(** X11. An error of the first write that is not a connection error is
    not reported as a failed connection: it comes out of [connect], after
    the closing line has been printed, and the manager is as it was. *)
Theorem connect_passes_other_error db w e fs :
  faults w = Some e :: fs ->
  is_ConnectionError e = false ->
  Forall (fun f => f = None) fs ->
  exists w',
    connect (db, w) = (Raise e, (db, w')) /\
    stdout w' = stdout w ++ ["Connection attempt completed"].
Proof.
  intros Hf He Hfs. rewrite connect_cases.
  unfold print at 1. rewrite Hf, He. unfold closing.
  set (w1 := mkWorld (stdout w) (clock_reads w) fs).
  assert (Hq : quiet w1) by exact Hfs.
  destruct (print_quiet "Connection attempt completed" w1 Hq)
    as (w2 & -> & Hout & _).
  by exists w2.
Qed.

Lemma connect_passes_other_error_witness :
  exists w',
    connect (init "db", mkWorld [] 0 [Some (mkExn OSError "No space left")])
      = (Raise (mkExn OSError "No space left"), (init "db", w')) /\
    stdout w' = ["Connection attempt completed"].
Proof.
  apply (connect_passes_other_error (init "db")
           (mkWorld [] 0 [Some (mkExn OSError "No space left")])
           (mkExn OSError "No space left") []);
    [reflexivity | reflexivity | constructor].
Defined.

(** X12. When the first write goes through and the closing write raises,
    [connect] raises that error although the flag has been set: the caller
    sees a failure and the manager is connected. *)
Theorem connect_raises_after_setting_flag db w e fs :
  faults w = None :: Some e :: fs ->
  connect (db, w)
  = (Raise e,
     (mkDB (connection db) (_cache db) true,
      mkWorld (stdout w ++ ["Connecting to: " +:+ connection db])
              (clock_reads w) fs)).
Proof.
  intros Hf. rewrite connect_cases.
  unfold print at 1. rewrite Hf. unfold closing, print. simpl. done.
Qed.

Lemma connect_raises_after_setting_flag_witness :
  exists db' w',
    connect (init "db", mkWorld [] 0 [None; Some (mkExn OSError "No space left")])
      = (Raise (mkExn OSError "No space left"), (db', w')) /\
    is_connected db' = true.
Proof.
  eexists _, _. split; [|shelve].
  apply (connect_raises_after_setting_flag (init "db")
           (mkWorld [] 0 [None; Some (mkExn OSError "No space left")])
           (mkExn OSError "No space left") []).
  reflexivity.
  Unshelve. reflexivity.
Defined.

(** ** process_data: what it does in every world *)

Lemma print_ret_inv line w w' :
  print line w = (Ret tt, w') ->
  stdout w' = stdout w ++ [line] /\ clock_reads w' = clock_reads w.
Proof.
  unfold print. destruct (faults w) as [|[e|] fs]; by intros [= <-].
Qed.

Lemma print_raise_inv line w e w' :
  print line w = (Raise e, w') ->
  stdout w' = stdout w /\ clock_reads w' = clock_reads w.
Proof.
  unfold print. destruct (faults w) as [|[e0|] fs]; by intros [= <- <-].
Qed.

(** What a run of the loop that returns has done, in any world. *)
Lemma process_loop_ret {h} items : forall i acc w out w',
  process_loop h i items acc w = (Ret out, w') ->
  exists lines,
    out = acc ++ lines /\
    Forall2 (line_of h) (valued_from i items) lines /\
    stdout w' = stdout w ++ map (fun _ => diagnostic) (missing items) /\
    forallb (transformable h) items = true.
Proof.
  induction items as [|item rest IH]; intros i acc w out w' H.
  - injection H as <- <-. exists []. rewrite !app_nil_r.
    repeat split. constructor.
  - rewrite process_loop_cons in H.
    unfold valued_from, missing, transformable. simpl.
    destruct (has_value item) eqn:Hv; simpl;
      unfold Eff.bind, Eff.of_outcome in H.
    + destruct (processed_of h item) as [t|e] eqn:Ht; [|discriminate].
      apply IH in H as (lines & -> & Hl & Hout & Hall).
      exists (item_line i t :: lines). rewrite <- app_assoc.
      repeat split; try done.
      constructor; [|done]. by exists t.
    + destruct (print diagnostic w) as [[[]|e] w1] eqn:Hp; [|discriminate].
      apply print_ret_inv in Hp as [Hp _].
      apply IH in H as (lines & -> & Hl & Hout & Hall).
      exists lines. repeat split; try done.
      by rewrite Hout, Hp, <- app_assoc.
Qed.

(** What any run of the loop has done to the world. *)
Lemma process_loop_world {h} items : forall i acc w o w',
  process_loop h i items acc w = (o, w') ->
  clock_reads w' = clock_reads w /\
  exists n, n <= length (missing items) /\
            stdout w' = stdout w ++ replicate n diagnostic.
Proof.
  induction items as [|item rest IH]; intros i acc w o w' H.
  - injection H as <- <-. split; [done|]. exists 0.
    by rewrite app_nil_r.
  - rewrite process_loop_cons in H. unfold missing. simpl.
    destruct (has_value item) eqn:Hv; simpl;
      unfold Eff.bind, Eff.of_outcome in H.
    + destruct (processed_of h item) as [t|e].
      * by apply IH in H.
      * injection H as <- <-. split; [done|]. exists 0.
        split; [lia|by rewrite app_nil_r].
    + destruct (print diagnostic w) as [[[]|e] w1] eqn:Hp.
      * apply print_ret_inv in Hp as [Hp Hc].
        apply IH in H as (Hc' & n & Hn & Hout).
        split; [congruence|]. exists (S n). split; [unfold missing in Hn; lia|].
        rewrite Hout, Hp, <- app_assoc. done.
      * injection H as <- <-. apply print_raise_inv in Hp as [Hp Hc].
        split; [done|]. exists 0. split; [lia|by rewrite app_nil_r].
Qed.

(** X13. In normal operation of the standard output [process_data]
    returns an output exactly when every record with a value can be
    transformed under its tag. *)
Theorem process_data_returns_iff h items w :
  quiet w ->
  (exists out w', process_data h items w = (Ret out, w')) <->
  forallb (transformable h) items = true.
Proof.
  intros Hq. split.
  - intros (out & w' & H).
    by apply process_loop_ret in H as (_ & _ & _ & _ & Hall).
  - intros Hall.
    destruct (process_data_ok items w Hq Hall) as (out & w' & H & _).
    by exists out, w'.
Qed.

Lemma process_data_returns_iff_witness :
  quiet fresh /\ exists out w', process_data demo_host sample_data fresh = (Ret out, w').
Proof.
  split; [constructor|].
  apply (process_data_returns_iff demo_host sample_data fresh quiet_fresh).
  by vm_compute.
Defined.

(** X14. Whenever [process_data] returns, in whatever world, its output
    has one line for each record with a value, in order and with the index
    of the record, so it is never longer than the input; and one diagnostic
    has been printed for each record without a value. *)
Theorem process_data_output_shape h items w out w' :
  process_data h items w = (Ret out, w') ->
  Forall2 (line_of h) (valued items) out /\
  length out + length (missing items) = length items /\
  stdout w' = stdout w ++ map (fun _ => diagnostic) (missing items).
Proof.
  intros H. apply process_loop_ret in H as (lines & -> & Hl & Hout & _).
  simpl. split; [exact Hl|]. split; [|exact Hout].
  rewrite <- (Forall2_length _ _ _ Hl). apply valued_missing_length.
Qed.

Lemma process_data_output_shape_witness :
  exists out w',
    process_data demo_host sample_data fresh = (Ret out, w') /\
    length out + length (missing sample_data) = 5.
Proof.
  destruct (process_data demo_host sample_data fresh) as [[out|e] w'] eqn:Hrun;
    [|vm_compute in Hrun; discriminate Hrun].
  exists out, w'. split; [reflexivity|].
  destruct (process_data_output_shape demo_host sample_data fresh out w' Hrun)
    as (_ & Hlen & _).
  exact Hlen.
Defined.

(** X15. Whether it returns or raises, and whatever the standard output
    does, [process_data] reads no clock and prints nothing but the
    diagnostic, at most once for each record without a value. *)
Theorem process_data_prints_only_diagnostics h items w o w' :
  process_data h items w = (o, w') ->
  clock_reads w' = clock_reads w /\
  exists n, n <= length (missing items) /\
            stdout w' = stdout w ++ replicate n diagnostic.
Proof. apply process_loop_world. Qed.

Lemma process_data_prints_only_diagnostics_witness :
  exists o w',
    process_data demo_host sample_data (mkWorld [] 0 [Some (mkExn OSError "disk")])
      = (o, w') /\
    clock_reads w' = 0.
Proof.
  destruct (process_data demo_host sample_data (mkWorld [] 0 [Some (mkExn OSError "disk")]))
    as [o w'] eqn:Hrun.
  exists o, w'. split; [reflexivity|].
  destruct (process_data_prints_only_diagnostics demo_host _ _ o w' Hrun) as (Hc & _).
  exact Hc.
Defined.

(** X16. An output line tells the index and the text of its record apart:
    equal lines have equal indices and equal texts.  So the lines of an
    output are pairwise different. *)
Theorem output_lines_distinct h :
  (forall i j p q, item_line i p = item_line j q -> i = j /\ p = q) /\
  (forall items w out w',
      process_data h items w = (Ret out, w') -> NoDup out).
Proof.
  assert (Hinj : forall i j p q,
             item_line i p = item_line j q -> i = j /\ p = q).
  { intros i j p q H. unfold item_line in H. apply String.app_inj in H.
    assert (Hsep : forall n : nat, Py.contains ":" (pretty n) = false).
    { intros n. apply (contains_all_chars is_numeral);
        [apply pretty_nat_numeral | reflexivity]. }
    change (": " +:+ ?x) with (String ":" (String " " x)) in H.
    apply app_sep_first in H as [H1 H2]; [|apply Hsep..].
    split; [by apply pretty_nat_inj in H1|by injection H2]. }
  split; [exact Hinj|].
  intros items w out w' H.
  apply process_loop_ret in H as (lines & -> & Hl & _). simpl.
  apply NoDup_alt. intros k1 k2 x H1 H2.
  destruct (Forall2_lookup_r _ _ _ _ _ Hl H1) as ([j1 it1] & Hv1 & t1 & _ & ->).
  destruct (Forall2_lookup_r _ _ _ _ _ Hl H2) as ([j2 it2] & Hv2 & t2 & _ & Hx).
  simpl in Hx. apply Hinj in Hx as [<- _].
  destruct (Nat.lt_trichotomy k1 k2) as [Hlt|[->|Hlt]]; [|done|].
  - pose proof (valued_from_increasing _ _ _ _ _ _ _ _ Hlt Hv1 Hv2). lia.
  - pose proof (valued_from_increasing _ _ _ _ _ _ _ _ Hlt Hv2 Hv1). lia.
Qed.

Lemma output_lines_distinct_witness :
  exists out w', process_data demo_host sample_data fresh = (Ret out, w') /\ NoDup out.
Proof.
  destruct (process_data demo_host sample_data fresh) as [[out|e] w'] eqn:Hrun;
    [|vm_compute in Hrun; discriminate Hrun].
  exists out, w'. split; [reflexivity|].
  destruct (output_lines_distinct demo_host) as (_ & H).
  exact (H sample_data fresh out w' Hrun).
Defined.

(** The list built so far is only extended by the loop. *)
Lemma process_loop_acc {h} items : forall i acc w,
  process_loop h i items acc w =
  match process_loop h i items [] w with
  | (Ret lines, w') => (Ret (acc ++ lines), w')
  | (Raise e, w') => (Raise e, w')
  end.
Proof.
  induction items as [|item rest IH]; intros i acc w.
  - simpl. unfold Eff.ret. by rewrite app_nil_r.
  - rewrite !process_loop_cons.
    destruct (has_value item); unfold Eff.bind, Eff.of_outcome.
    + destruct (processed_of h item) as [t|e]; [|done].
      rewrite (IH (S i) (acc ++ [item_line i t])).
      rewrite (IH (S i) ([] ++ [item_line i t])).
      destruct (process_loop h (S i) rest [] w) as [[lines|e] w']; [|done].
      by rewrite <- app_assoc.
    + destruct (print diagnostic w) as [[[]|e] w1]; [|done].
      apply IH.
Qed.

(** X17. A batch made of two parts is processed as the first part followed
    by the second, the second numbered from the length of the first: when
    the first part returns, its lines open the output; when it raises, the
    whole batch raises the same error in the same world, whatever the
    second part holds. *)
Theorem process_data_app h l1 l2 w :
  process_data h (l1 ++ l2) w =
  match process_data h l1 w with
  | (Ret o1, w1) =>
      match process_loop h (length l1) l2 [] w1 with
      | (Ret o2, w2) => (Ret (o1 ++ o2), w2)
      | (Raise e, w2) => (Raise e, w2)
      end
  | (Raise e, w1) => (Raise e, w1)
  end.
Proof.
  unfold process_data. rewrite process_loop_app.
  destruct (process_loop h 0 l1 [] w) as [[o1|e] w1]; [|done].
  apply process_loop_acc.
Qed.

(** A run of records that all have a value the tag can transform prints
    nothing. *)
Lemma process_loop_silent {h} items : forall i acc w,
  forallb (fun item => has_value item && transformable h item) items = true ->
  exists lines, process_loop h i items acc w = (Ret (acc ++ lines), w).
Proof.
  induction items as [|item rest IH]; intros i acc w Hall.
  - exists []. simpl. unfold Eff.ret. by rewrite app_nil_r.
  - simpl in Hall. apply andb_true_iff in Hall as [Hitem Hrest].
    apply andb_true_iff in Hitem as [Hv Ht].
    unfold transformable in Ht. rewrite Hv in Ht. simpl in Ht.
    rewrite process_loop_cons, Hv. unfold Eff.bind, Eff.of_outcome.
    destruct (processed_of h item) as [t|e]; [|discriminate].
    destruct (IH (S i) (acc ++ [item_line i t]) w Hrest) as (lines & ->).
    exists (item_line i t :: lines). by rewrite <- app_assoc.
Qed.

(** X18. The diagnostic for a record without a value is itself a write
    that can fail: when the standard output raises on it, the error comes
    out of [process_data] and the batch yields no output, although every
    record before it was transformed. *)
Theorem diagnostic_write_fault_aborts h pre item post w e fs :
  forallb (fun it => has_value it && transformable h it) pre = true ->
  has_value item = false ->
  faults w = Some e :: fs ->
  process_data h (pre ++ item :: post) w
  = (Raise e, mkWorld (stdout w) (clock_reads w) fs).
Proof.
  intros Hpre Hv Hf. unfold process_data. rewrite process_loop_app.
  destruct (process_loop_silent pre 0 [] w Hpre) as (lines & ->).
  rewrite process_loop_cons, Hv. unfold Eff.bind, print. by rewrite Hf.
Qed.

Lemma diagnostic_write_fault_aborts_witness :
  process_data demo_host
    [ {[ "type" := VStr "number"; "value" := VInt 21 ]};
      {[ "type" := VStr "string" ]};
      {[ "type" := VStr "number"; "value" := VInt 1 ]} ]
    (mkWorld [] 0 [Some (mkExn BrokenPipeError "Broken pipe")])
  = (Raise (mkExn BrokenPipeError "Broken pipe"), fresh).
Proof.
  apply (diagnostic_write_fault_aborts demo_host
           [ {[ "type" := VStr "number"; "value" := VInt 21 ]} ]
           {[ "type" := VStr "string" ]}
           [ {[ "type" := VStr "number"; "value" := VInt 1 ]} ]
           (mkWorld [] 0 [Some (mkExn BrokenPipeError "Broken pipe")])
           (mkExn BrokenPipeError "Broken pipe") []);
    [by vm_compute | by vm_compute | reflexivity].
Defined.

(** X19. A record tagged "boolean" never fails, whatever its value, so in
    normal operation of the standard output a batch of such records always
    returns.  A record with a value and a tag other than "string",
    "number" and "boolean", or with no tag, fails exactly when the host
    cannot produce the text of the value: an integer beyond the digit
    limit, or nesting beyond the room the recursion limit leaves. *)
Theorem other_tags_fail_only_on_text h :
  (forall item,
      item !! "type" = Some (VStr "boolean") -> transformable h item = true) /\
  (forall item v,
      item !! "type" <> Some (VStr "string") ->
      item !! "type" <> Some (VStr "number") ->
      item !! "type" <> Some (VStr "boolean") ->
      item !! "value" = Some v ->
      v <> VNone ->
      (transformable h item = true <-> exists t, py_str h v = Ret t)) /\
  (forall items w,
      quiet w ->
      Forall (fun item => item !! "type" = Some (VStr "boolean")) items ->
      exists out w', process_data h items w = (Ret out, w')).
Proof.
  assert (Hbool : forall item,
             item !! "type" = Some (VStr "boolean") ->
             transformable h item = true).
  { intros item Ht. unfold transformable, processed_of.
    rewrite (dict_get_present _ _ _ Ht).
    change (dispatch h (VStr "boolean") (dict_get item "value"))
      with (map_outcome (String.append "Boolean: ")
              (py_str h (VBool (negb (truthy (dict_get item "value")))))).
    rewrite py_str_bool. simpl. apply orb_true_r. }
  split; [exact Hbool|]. split.
  - intros item v Hs Hn Hb Hv Hnn. unfold transformable.
    rewrite (has_value_present _ _ Hv Hnn), (processed_of_default _ Hs Hn Hb).
    rewrite (dict_get_present _ _ _ Hv). simpl.
    destruct (py_str h v) as [t|e]; simpl; split; eauto; try done.
    by intros [t [=]].
  - intros items w Hq Htags.
    assert (Hall : forallb (transformable h) items = true).
    { apply forallb_forall. intros item Hin.
      apply list_elem_of_In in Hin.
      rewrite Forall_forall in Htags. by apply Hbool, Htags. }
    destruct (process_data_ok items w Hq Hall) as (out & w' & H & _).
    by exists out, w'.
Qed.

Lemma other_tags_fail_only_on_text_witness :
  (exists out w',
      process_data demo_host
        [ {[ "type" := VStr "boolean"; "value" := VDict [] ]};
          {[ "type" := VStr "boolean"; "value" := VInt (10 ^ 4300) ]} ] fresh
      = (Ret out, w')) /\
  transformable demo_host {[ "type" := VStr "unknown"; "value" := VList [] ]}
  = true.
Proof.
  destruct (other_tags_fail_only_on_text demo_host) as (_ & Hd & Hb).
  split.
  - apply (Hb _ fresh quiet_fresh). repeat constructor; by vm_compute.
  - apply (Hd {[ "type" := VStr "unknown"; "value" := VList [] ]} (VList []));
      try (by vm_compute); try discriminate.
    exists "[]". by vm_compute.
Defined.

(** A host configured with the lowest digit limit the interpreter accepts. *)
Definition strict_host : Host := mkHost 640 100.

(** Beyond the digit limit of the host the text of an integer is refused,
    under the default arm as anywhere else; at the limit it is printed. *)
Example unknown_tag_long_int_raises :
  exists msg,
    process_data strict_host
      [ {[ "type" := VStr "unknown"; "value" := VInt (10 ^ 640) ]} ] fresh
    = (Raise (mkExn PyValueError msg), fresh).
Proof. eexists. vm_compute. reflexivity. Qed.

Example unknown_tag_int_at_limit :
  transformable strict_host
    {[ "type" := VStr "unknown"; "value" := VInt (10 ^ 640 - 1) ]} = true.
Proof. vm_compute. reflexivity. Qed.

Example number_tag_double_too_long :
  int_digits (5 * 10 ^ 639) = 640 /\
  exists msg,
    process_data strict_host
      [ {[ "type" := VStr "number"; "value" := VInt (5 * 10 ^ 639) ]} ] fresh
    = (Raise (mkExn PyValueError msg), fresh).
Proof. split; [by vm_compute|]. eexists. vm_compute. reflexivity. Qed.

Example nesting_beyond_room_raises :
  process_data (mkHost 4300 1)
    [ {[ "type" := VStr "unknown"; "value" := VList [VList [VList []]] ]} ] fresh
  = (Raise recursion_error, fresh).
Proof. vm_compute. reflexivity. Qed.

(** ** Person *)

(** X20. [Person] accepts an age exactly when it is not negative, zero
    included, and then holds the three values passed; a negative age
    raises [ValueError] with the text "Age cannot be negative" and no
    object is built. *)
Theorem new_Person_checks_age n a e :
  ((0 <= a)%Z <-> new_Person n a e = Valid (mkPerson n a e)) /\
  ((a < 0)%Z <-> new_Person n a e = ValueError "Age cannot be negative") /\
  (forall p, new_Person n a e = Valid p ->
             (0 <= age p)%Z /\ name p = n /\ age p = a /\ email p = e).
Proof.
  unfold new_Person, post_init. simpl.
  destruct (Z.ltb_spec a 0) as [Hlt|Hge].
  - split; [split; [lia|discriminate]|].
    split; [split; [done|done]|discriminate].
  - split; [split; [done|done]|].
    split; [split; [lia|discriminate]|].
    intros p [= <-]. by simpl.
Qed.

(** X21. The greeting tells name and age apart: two persons with the same
    greeting have the same name and the same age. *)
Theorem greet_inj p1 p2 :
  greet p1 = greet p2 -> name p1 = name p2 /\ age p1 = age p2.
Proof.
  unfold greet. intros H. apply String.app_inj in H.
  assert (Hsep : forall z : Z, Py.contains " " (pretty z) = false).
  { intros z. apply (contains_all_chars is_numeral);
      [apply pretty_Z_numeral | reflexivity]. }
  rewrite <- !(app_assoc_str (name _) " and I'm " _) in H.
  rewrite <- !(app_assoc_str _ (pretty _) " years old.") in H.
  apply app_inv_tail_str in H.
  assert (Hcut : forall s d,
             (s +:+ " and I'm ") +:+ d
             = (s +:+ " and I'm") +:+ String " " d).
  { intros s d. by rewrite !app_assoc_str. }
  rewrite !Hcut in H.
  apply app_sep_last in H as [Hn Ha]; [|apply Hsep..].
  split; [by apply app_inv_tail_str in Hn|by apply pretty_Z_inj in Ha].
Qed.

Lemma greet_inj_witness :
  greet (mkPerson "Alice" 30 (Some "alice@example.com"))
  = "Hello, my name is Alice and I'm 30 years old." /\
  name (mkPerson "Alice" 30 (Some "alice@example.com"))
  = name (mkPerson "Alice" 30 None).
Proof.
  split; [reflexivity|].
  apply (greet_inj (mkPerson "Alice" 30 (Some "alice@example.com"))
                   (mkPerson "Alice" 30 None)).
  reflexivity.
Defined.

Lemma new_Person_checks_age_witness :
  new_Person "Alice" 30 (Some "alice@example.com")
  = Valid (mkPerson "Alice" 30 (Some "alice@example.com")) /\
  new_Person "Bob" 0 None = Valid (mkPerson "Bob" 0 None) /\
  new_Person "Eve" (-1) None = ValueError "Age cannot be negative".
Proof.
  split; [|split].
  - apply (new_Person_checks_age "Alice" 30 (Some "alice@example.com")). lia.
  - apply (new_Person_checks_age "Bob" 0 None). lia.
  - apply (new_Person_checks_age "Eve" (-1) None). lia.
Defined.
